(** * app.py: URL article word-frequency pipeline

    A shallow embedding of the text pipeline of [app.py]
    (extract, clean, tokenize, count, filter, rank) together with the
    properties stated about it.

    Conventions.
    - A Python [str] is a sequence of Unicode code points, so it is modelled
      as [list N]; [len] is [length], and a one-character class of a regular
      expression is a predicate on code points.
    - Python [int] is unbounded: counts and thresholds are in [Z].
    - A [Counter] is a dict, which keeps its keys in insertion order: an
      association list whose keys are pairwise distinct, in that order.
    - [STOPWORDS] is a Python [set]: a [gset str].
    - Objects that are shared by reference (the counters kept in
      [st.session_state]) live in an explicit object store. *)

From Stdlib Require Import ZArith NArith Lia Ascii String.
From Equations Require Import Equations.
From stdpp Require Import base option list gmap sorting.

Set Default Proof Using "Type".

(** ** Unicode text *)

Module Text.

Definition char := N.
Definition str := list N.

(** Decoder used only to write the literals of the source file, which is
    UTF-8 encoded, as code points. *)
Fixpoint utf8_decode (bs : list N) : str :=
  match bs with
  | [] => []
  | b0 :: r0 =>
    if (b0 <? 128)%N then b0 :: utf8_decode r0
    else match r0 with
    | [] => []
    | b1 :: r1 =>
      if (b0 <? 224)%N
      then ((b0 - 192) * 64 + (b1 - 128))%N :: utf8_decode r1
      else match r1 with
      | [] => []
      | b2 :: r2 =>
        if (b0 <? 240)%N
        then ((b0 - 224) * 4096 + (b1 - 128) * 64 + (b2 - 128))%N
             :: utf8_decode r2
        else match r2 with
        | [] => []
        | b3 :: r3 =>
          ((b0 - 240) * 262144 + (b1 - 128) * 4096
           + (b2 - 128) * 64 + (b3 - 128))%N :: utf8_decode r3
        end
      end
    end
  end.

Definition lit (s : string) : str :=
  utf8_decode (map N_of_ascii (list_ascii_of_string s)).

(** [str.isspace] on one character, which is also what [\s] matches in a
    [str] pattern: the code points Python classifies as whitespace. *)
Definition is_space (c : char) : bool :=
  ((9 <=? c) && (c <=? 13) || (28 <=? c) && (c <=? 32)
   || (c =? 133) || (c =? 160) || (c =? 5760)
   || (8192 <=? c) && (c <=? 8202)
   || (c =? 8232) || (c =? 8233) || (c =? 8239) || (c =? 8287)
   || (c =? 12288))%N.

(** [s.strip()]: whitespace removed at both ends. *)
Fixpoint lstrip (s : str) : str :=
  match s with
  | [] => []
  | c :: t => if is_space c then lstrip t else s
  end.

Definition rstrip (s : str) : str := reverse (lstrip (reverse s)).

Definition strip (s : str) : str := rstrip (lstrip s).

(** [sep.join(parts)] *)
Fixpoint join (sep : str) (parts : list str) : str :=
  match parts with
  | [] => []
  | [p] => p
  | p :: ps => p ++ sep ++ join sep ps
  end.

Definition newline : str := [10%N].

(** [str.lower] on ASCII text, to run the model on examples. *)
Definition ascii_lower (s : str) : str :=
  (λ c, if ((65 <=? c) && (c <=? 90))%N then (c + 32)%N else c) <$> s.

(** Truthiness of a [str], a [list] or a [dict]: non-empty. *)
Definition truthy {A} (l : list A) : bool :=
  match l with [] => false | _ => true end.

End Text.
Import Text.

(** ** The cleaner: lines 69-71 of [clean_and_segment] *)

Module Cleaner.

Definition LT : char := 60%N.  (* '<' *)
Definition GT : char := 62%N.  (* '>' *)

(** [tag_body t]: [t] is the text that follows a '<'.  The greedy
    [[^>]+] takes every character up to the first '>', and the match
    succeeds when that run is not empty and a '>' does follow it.  The
    result is the length of the run. *)
Fixpoint tag_body (t : str) : option nat :=
  match t with
  | [] => None
  | c :: t' =>
    if decide (c = GT) then Some 0%nat
    else S <$> tag_body t'
  end.

Definition tag_match (t : str) : option nat :=
  match tag_body t with
  | Some (S k) => Some (S k)
  | _ => None
  end.

(** [re.sub(r"<[^>]+>", "", text)]: scan from the left; where the pattern
    matches, drop the match and resume after it, otherwise keep the
    character and move one position on. *)
Equations? strip_tags (s : str) : str by wf (length s) lt :=
  strip_tags [] := [];
  strip_tags (c :: t) :=
    if decide (c = LT) then
      match tag_match t with
      | Some k => strip_tags (drop (S k) t)
      | None => c :: strip_tags t
      end
    else c :: strip_tags t.
Proof.
  all: try (simpl; lia).
  simpl. destruct t; simpl; try lia. rewrite length_drop. lia.
Qed.

(** The class [[0-9a-zA-Z\s+]]: digits, ASCII letters, whitespace and
    the plus sign (inside a class, [+] is a literal). *)
Definition alnum_space_plus (c : char) : bool :=
  ((48 <=? c) && (c <=? 57) || (97 <=? c) && (c <=? 122)
   || (65 <=? c) && (c <=? 90) || is_space c || (c =? 43))%N.

(** The punctuation of the class on line 71, in the order written there. *)
Definition punctuation : str :=
  Eval vm_compute in lit "，。！？；：、（）【】".

(** The class on line 71 is negated: what it leaves in place is the range
    U+4E00..U+9FA5 and the punctuation above. *)
Definition kept (c : char) : bool :=
  ((19968 <=? c) && (c <=? 40869))%N || bool_decide (c ∈ punctuation).

Definition remove_tags (text : str) : str := strip_tags text.
Definition remove_alnum (text : str) : str :=
  filter (λ c, alnum_space_plus c = false) text.
Definition keep_chinese (text : str) : str :=
  filter (λ c, kept c = true) text.

(** ASCII letters and digits. *)
Definition ascii_alnum (c : char) : Prop :=
  (48 ≤ c ≤ 57 ∨ 65 ≤ c ≤ 90 ∨ 97 ≤ c ≤ 122)%N.

(** The three substitutions, in the order of the source. *)
Definition clean (text : str) : str :=
  keep_chinese (remove_alnum (remove_tags text)).

End Cleaner.

Import Cleaner.

(** ** Tokenizer post-filter and aggregator: lines 74-79 *)

(** A [Counter]: an insertion-ordered dict from words to counts. *)
Abbreviation Counter := (list (str * Z)) (only parsing).

Module Aggregator.

(** [mapping[elem] = mapping.get(elem, 0) + 1]: an existing key keeps its
    position, a new key goes last. *)
Fixpoint incr (mapping : Counter) (elem : str) : Counter :=
  match mapping with
  | [] => [(elem, 1%Z)]
  | (k, n) :: rest =>
    if decide (k = elem) then (k, (n + 1)%Z) :: rest
    else (k, n) :: incr rest elem
  end.

(** [Counter(seg_list)] *)
Definition count_elements (seg_list : list str) : Counter :=
  foldl incr [] seg_list.

(** [mapping.get(key, 0)] *)
Fixpoint get (mapping : Counter) (key : str) : Z :=
  match mapping with
  | [] => 0%Z
  | (k, n) :: rest => if decide (k = key) then n else get rest key
  end.

Definition keys (mapping : Counter) : list str := mapping.*1.
Definition values (mapping : Counter) : list Z := mapping.*2.
Definition total (mapping : Counter) : Z := foldr Z.add 0%Z (values mapping).

(** [seg_list.index(word)] for a word of the list, and the length of the
    list for any other word. *)
Fixpoint first_index (word : str) (seg_list : list str) : nat :=
  match seg_list with
  | [] => 0
  | x :: rest => if decide (x = word) then 0 else S (first_index word rest)
  end.

(** [seg_list.count(word)] *)
Definition occurrences (word : str) (seg_list : list str) : Z :=
  Z.of_nat (length (filter (λ x, x = word) seg_list)).

End Aggregator.
Import Aggregator.

Section Tokenizer.

(** [jieba.lcut], the external segmentation, and the stopword set. *)
Variable lcut : str → list str.
Variable STOPWORDS : gset str.

(** The condition of the comprehension on line 75. *)
Definition valid_word (word : str) : Prop :=
  (word ∉ STOPWORDS) ∧ (1 < length word)%nat ∧ truthy (strip word) = true.

#[global] Instance valid_word_dec word : Decision (valid_word word).
Proof. unfold valid_word. apply _. Defined.

Definition post_filter (seg_list : list str) : list str :=
  filter valid_word seg_list.

Definition clean_and_segment (text : str) : list str * Counter :=
  let text := clean text in
  let seg_list := lcut text in
  let seg_list := post_filter seg_list in
  let word_count := count_elements seg_list in
  (seg_list, word_count).

End Tokenizer.

(** ** Filter and ranking: lines 81-83 and 225 *)

Module Ranker.

(** The dict comprehension of line 83: the items of [word_count], in
    their order, whose count reaches [min_freq]. *)
Definition retained (word_count : Counter) (min_freq : Z) : Counter :=
  filter (λ item, (min_freq ≤ item.2)%Z) word_count.

(** [sorted(items, key=itemgetter(1), reverse=True)] is a stable sort:
    items go by decreasing count, and items of equal count keep the order
    they had.  Inserting from the right, an item is placed in front of
    the first item whose count is not larger than its own. *)
Fixpoint insert_desc (item : str * Z) (l : list (str * Z)) : list (str * Z) :=
  match l with
  | [] => [item]
  | y :: l' =>
    if decide (item.2 < y.2)%Z then y :: insert_desc item l'
    else item :: l
  end.

Definition sorted_desc (items : list (str * Z)) : list (str * Z) :=
  foldr insert_desc [] items.

(** [Counter.most_common(n)], that is [heapq.nlargest(n, items, key)],
    which is [sorted(items, key=key, reverse=True)[:n]]. *)
Definition most_common (n : nat) (c : Counter) : list (str * Z) :=
  take n (sorted_desc c).

End Ranker.
Import Ranker.

(** ** Objects shared by reference *)

Module Store.

(** Addresses are indices into the list of all objects made so far. *)
Abbreviation loc := nat (only parsing).
Abbreviation store := (list Counter) (only parsing).

Definition deref (σ : store) (r : loc) : Counter := default [] (σ !! r).

(** A new object gets an address no live object has. *)
Definition alloc (σ : store) (v : Counter) : store * loc :=
  (σ ++ [v], length σ).

End Store.
Import Store.

(** [filter_low_freq_words] on objects: the comprehension builds a new
    dict from the items of [word_count], and [Counter(...)] builds a new
    counter filled from that dict; nothing is written to [word_count]. *)
Definition filter_low_freq_words (σ : store) (word_count : loc) (min_freq : Z)
  : store * loc :=
  let '(σ, d) := alloc σ (retained (deref σ word_count) min_freq) in
  alloc σ (deref σ d).

(** The table a call returns. *)
Definition filtered (σ : store) (word_count : loc) (min_freq : Z) : Counter :=
  let '(σ', r) := filter_low_freq_words σ word_count min_freq in
  deref σ' r.

(** An order on items: a larger count first, and [R] among equal counts. *)
Definition by_count_then (R : relation (str * Z)) (a b : str * Z) : Prop :=
  (b.2 < a.2)%Z ∨ (a.2 = b.2 ∧ R a b).

(** The order of the ranked list for the stream [seg_list]: a larger count
    first, and among equal counts the word that occurs first in the
    stream. *)
Definition ranks_before (seg_list : list str) (a b : str * Z) : Prop :=
  (b.2 < a.2)%Z
  ∨ (a.2 = b.2
     ∧ (first_index a.1 seg_list < first_index b.1 seg_list)%nat).

(** ** The extractor: lines 53-62 of [crawl_url_article] *)

Module Soup.

(** The parse tree: text, comments (which [get_text] skips), and tags
    with their name, their [class] attribute ([None] when absent, else the
    whitespace-separated values) and their children. *)
#[warnings="-register-all"] Inductive node :=
| NavigableString (s : str)
| Comment (s : str)
| Tag (name : str) (class_ : option (list str)) (contents : list node).

Definition soup := list node.

(** [tag.get_text()]: the text of the subtree, in document order. *)
Fixpoint get_text (n : node) : str :=
  match n with
  | NavigableString s => s
  | Comment _ => []
  | Tag _ _ contents =>
    (fix all (l : list node) : str :=
       match l with
       | [] => []
       | c :: l' => get_text c ++ all l'
       end) contents
  end.

(** The node and everything below it, in document order. *)
Fixpoint descendants_or_self (n : node) : list node :=
  n :: match n with
       | Tag _ _ contents =>
         (fix all (l : list node) : list node :=
            match l with
            | [] => []
            | c :: l' => descendants_or_self c ++ all l'
            end) contents
       | _ => []
       end.

Definition removed_names : list str :=
  lit <$> ["script"; "style"; "nav"; "footer"; "aside"; "header"]%string.

(** The loop of lines 53-54: every tag with one of these names is taken
    out of the tree, with all it contains. *)
Fixpoint decompose_in (n : node) : list node :=
  match n with
  | Tag name class_ contents =>
    if bool_decide (name ∈ removed_names) then []
    else [Tag name class_
            ((fix all (l : list node) : list node :=
                match l with
                | [] => []
                | c :: l' => decompose_in c ++ all l'
                end) contents)]
  | _ => [n]
  end.

Definition decompose_all (doc : soup) : soup := doc ≫= decompose_in.

(** [needle in hay] *)
Fixpoint starts_with (needle hay : str) : bool :=
  match needle, hay with
  | [], _ => true
  | _ :: _, [] => false
  | a :: needle', b :: hay' => bool_decide (a = b) && starts_with needle' hay'
  end.

Fixpoint contains (needle hay : str) : bool :=
  starts_with needle hay ||
  match hay with
  | [] => false
  | _ :: hay' => contains needle hay'
  end.

Section Find.

(** [str.lower] *)
Variable lower : str → str.

(** The function given as [class_] on line 57; bs4 calls it with [None]
    when the attribute is absent. *)
Definition class_filter (x : option str) : bool :=
  match x with
  | None => false
  | Some x =>
    truthy x &&
    (contains (lit "content") (lower x) || contains (lit "article") (lower x))
  end.

(** How bs4 applies a function to the multi-valued [class] attribute:
    to each value, and then to the values joined by a space. *)
Definition class_matches (class_ : option (list str)) : bool :=
  match class_ with
  | None => class_filter None
  | Some vs =>
    existsb (λ v, class_filter (Some v)) vs
    || class_filter (Some (join (lit " ") vs))
  end.

Definition is_tag (name : str) (n : node) : bool :=
  match n with
  | Tag name' _ _ => bool_decide (name' = name)
  | _ => false
  end.

Definition is_content_div (n : node) : bool :=
  match n with
  | Tag name class_ _ => bool_decide (name = lit "div") && class_matches class_
  | _ => false
  end.

(** [soup.find_all(...)]: the matching tags, in document order. *)
Definition find_all (p : node → bool) (doc : soup) : list node :=
  filter (λ n, p n = true) (doc ≫= descendants_or_self).

(** [a or b]: [a] when it is not empty, else [b].  A chain [a or b or c]
    gives the first operand that is not empty, or the last one. *)
Definition or_ {A} (a b : list A) : list A := if truthy a then a else b.

(** The three tiers of line 57. *)
Definition tier1 (doc : soup) : list node :=
  find_all (is_tag (lit "article")) doc.
Definition tier2 (doc : soup) : list node := find_all is_content_div doc.
Definition tier3 (doc : soup) : list node := find_all (is_tag (lit "p")) doc.

(** Line 58: the text a list of tags produces. *)
Definition tags_text (content_tags : list node) : str :=
  join newline
    ((λ tag, strip (get_text tag)) <$>
     filter (λ tag, truthy (strip (get_text tag)) = true) content_tags).

Definition no_content : str :=
  lit "未提取到正文（可能是动态页面/标签不匹配）".

(** Lines 53-62 on a parsed document: the pair that is returned. *)
Definition extract (doc : soup) : option str * str :=
  let doc := decompose_all doc in
  let content_tags := or_ (tier1 doc) (or_ (tier2 doc) (tier3 doc)) in
  let article_text := tags_text content_tags in
  if negb (truthy article_text) then (None, no_content)
  else (Some article_text, []).

(** The rule in the words of the specification, for comparison: the
    text of the first tier whose text is not empty. *)
Definition first_nonempty_text (doc : soup) : str :=
  let doc := decompose_all doc in
  if truthy (tags_text (tier1 doc)) then tags_text (tier1 doc)
  else if truthy (tags_text (tier2 doc)) then tags_text (tier2 doc)
  else tags_text (tier3 doc).

Definition extract_by_text (doc : soup) : option str * str :=
  let article_text := first_nonempty_text doc in
  if negb (truthy article_text) then (None, no_content)
  else (Some article_text, []).

(** What line 60-62 return for the text of the chosen tags. *)
Definition result_of (article_text : str) : option str * str :=
  if negb (truthy article_text) then (None, no_content)
  else (Some article_text, []).

(** Lines 47-50: the request and the parse either raise, with the text
    of the exception, or give a tree. *)
Variable fetch : str → soup + str.

Definition crawl_url_article (url : str) : option str * str :=
  match fetch url with
  | inl doc => extract doc
  | inr e => (None, lit "爬取失败：" ++ e)
  end.

End Find.

End Soup.
Import Soup.

(** ** The page: [generate_chart] and [main] *)

Module App.

Inductive chart :=
| WordCloud | Bar | Line | Pie | Radar | Scatter | Funnel | Gauge.

(** What the page does, in order. *)
Inductive event :=
| http_get (url : str)
| st_error (msg : str)
| st_success (length_of_text : nat)
| st_info (tokens unique : nat)
| st_warning (min_freq : Z)
| st_dataframe (rows : list (str * Z))
| st_pyecharts (chart_type : chart) (series : list (str * Z))
| TypeError.

(** The data series [generate_chart] puts in the chart: the first 20
    items, the first 10 of them for the radar chart, the first one (or a
    placeholder) for the gauge. *)
Definition generate_chart (chart_type : chart) (word_data : list (str * Z))
  : list (str * Z) :=
  let top20_data := take 20 word_data in
  match chart_type with
  | Radar => take 10 top20_data
  | Gauge =>
    match top20_data with
    | item :: _ => [item]
    | [] => [(lit "无数据", 0%Z)]
    end
  | _ => top20_data
  end.

(** [st.session_state] and the objects it refers to. *)
Record state := State {
  objects : store;
  word_count : option loc;
}.

(** The widgets' values in one run of the script. *)
Record inputs := Inputs {
  chart_type : chart;
  min_freq : Z;
  url : str;
  crawl_btn : bool;
}.

Section Main.

Variable lower : str → str.
Variable fetch : str → soup + str.
Variable lcut : str → list str.
Variable STOPWORDS : gset str.

(** Lines 216-235. *)
Definition show_results (inp : inputs) (st : state) (r : loc)
  : state * list event :=
  if truthy (deref (objects st) r) then
    let '(σ, filtered_word_count) :=
      filter_low_freq_words (objects st) r (min_freq inp) in
    let st := State σ (word_count st) in
    if negb (truthy (deref σ filtered_word_count)) then
      (st, [st_warning (min_freq inp)])
    else
      let sorted_word_data := most_common 20 (deref σ filtered_word_count) in
      (st, [st_dataframe sorted_word_data;
            st_pyecharts (chart_type inp)
              (generate_chart (chart_type inp) sorted_word_data)])
  else (st, []).

(** One run of [main]. *)
Definition main (inp : inputs) (st : state) : state * list event :=
  (* lines 197-198 *)
  let '(st, r) :=
    match word_count st with
    | Some r => (st, r)
    | None =>
      let '(σ, r) := alloc (objects st) [] in
      (State σ (Some r), r)
    end in
  (* lines 201-213 *)
  if crawl_btn inp && truthy (url inp) then
    let '(article_text, error) := crawl_url_article lower fetch (url inp) in
    if truthy error then (st, [http_get (url inp); st_error error])
    else
      match article_text with
      | None => (st, [http_get (url inp); TypeError])
      | Some article_text =>
        let '(seg_list, wc) := clean_and_segment lcut STOPWORDS article_text in
        let '(σ, r) := alloc (objects st) wc in
        let st := State σ (Some r) in
        let '(st, shown) := show_results inp st r in
        (st, [http_get (url inp);
              st_success (length article_text);
              st_info (length seg_list) (length wc)] ++ shown)
      end
  else show_results inp st r.

End Main.

End App.
Import App.

(** ** The stopword table: lines 23-38 *)

Module Stopwords.

Definition default_stopwords : gset str :=
  list_to_set
    (lit <$>
     ["的"; "了"; "是"; "我"; "你"; "他"; "她"; "它"; "们"; "在"; "和"; "与";
      "或"; "就"; "都"; "而"; "及"; "即"; "也"; "又"; "还"; "因"; "为"; "以";
      "于"; "之"; "这"; "那"; "此"; "彼"; "个"; "些"; "能"; "可"; "会"; "应";
      "要"; "将"; "把"; "对"; "对于"; "关于"; "通过"; "随着"; "按照"; "基于";
      "根据"; "如果"; "假如"]%string).

Definition missing_file_warning : str :=
  lit "未找到停用词文件，使用默认停用词表".

(** [load_stopwords]: [file] is [None] when opening [stopwords.txt] raises
    [FileNotFoundError], else the lines the file iterates over.  The
    result is the set, and the warning shown if any. *)
Definition load_stopwords (file : option (list str)) : gset str * option str :=
  match file with
  | Some f =>
    (list_to_set
       (strip <$> filter (λ line, truthy (strip line) = true) f), None)
  | None => (default_stopwords, Some missing_file_warning)
  end.

End Stopwords.
Import Stopwords.

(** A node the loop of lines 53-54 leaves alone: anything but a tag with
    one of the removed names. *)
Definition survives (n : node) : Prop :=
  match n with
  | Tag name _ _ => name ∉ removed_names
  | _ => True
  end.

(** The session after lines 197-198, and the counter it refers to. *)
Definition initialised (st : state) : state * loc :=
  match word_count st with
  | Some r => (st, r)
  | None => (State (objects st ++ [[]]) (Some (length (objects st))),
             length (objects st))
  end.

(** ** Concrete inputs used to run the model *)

Module Examples.

(** The stream A A B B B C. *)
Definition stream : list str :=
  [lit "A"; lit "A"; lit "B"; lit "B"; lit "B"; lit "C"].

(** A store whose only object is the table of that stream. *)
Definition objects_of_stream : store := [count_elements stream].

(** [<article></article><p>正文内容</p>] *)
Definition doc_empty_article : soup :=
  [Tag (lit "article") None [];
   Tag (lit "p") None [NavigableString (lit "正文内容")]].

(** [<script>var x;</script><style>p {}</style>] *)
Definition doc_scripts_only : soup :=
  [Tag (lit "script") None [NavigableString (lit "var x;")];
   Tag (lit "style") None [NavigableString (lit "p {}")]].

(** A session that holds the table of the stream, and two runs of the
    page without a crawl: one with a threshold above every count, one
    with the default threshold. *)
Definition session : state := State objects_of_stream (Some 0).
Definition run_high : inputs := Inputs WordCloud 4 [] false.
Definition run_low : inputs := Inputs WordCloud 2 [] false.

(** No network. *)
Definition offline (url : str) : soup + str := inr (lit "timeout").

(** [<div><p>  第一段 </p><p>第二段</p></div>] *)
Definition doc_paragraphs : soup :=
  [Tag (lit "div") None
     [Tag (lit "p") None [NavigableString (lit "  第一段 ")];
      Tag (lit "p") None [NavigableString (lit "第二段")]]].

(** A site that serves [doc_paragraphs], and a segmentation into single
    characters and one into pairs of characters. *)
Definition online (url : str) : soup + str := inl doc_paragraphs.
Definition cut_chars (text : str) : list str := (λ c, [c]) <$> text.
Fixpoint cut_pairs (text : str) : list str :=
  match text with
  | a :: b :: rest => [a; b] :: cut_pairs rest
  | _ => []
  end.

(** A run that crawls, and a session not yet initialised. *)
Definition run_crawl : inputs := Inputs Bar 1 (lit "http://example.com") true.
Definition new_session : state := State [] None.

End Examples.

(** * Properties *)

(** ** Cleaner *)

Section CleanerFacts.

Lemma filter_all {A} (P : A → Prop) `{!∀ x, Decision (P x)} (l : list A) :
  Forall P l → filter P l = l.
Proof.
  induction 1 as [|x l Hx _ IH]; [done|].
  by rewrite filter_cons_True, IH.
Qed.

Lemma Forall_filter_self {A} (P : A → Prop) `{!∀ x, Decision (P x)}
    (l : list A) :
  Forall P (filter P l).
Proof. apply Forall_forall. intros x [Hx _]%list_elem_of_filter. done. Qed.

(** Without a '<' there is nothing for the tag pattern to match. *)
Lemma strip_tags_no_lt (s : str) :
  Forall (λ c, c ≠ LT) s → strip_tags s = s.
Proof.
  induction 1 as [|c t Hc _ IH]; [done|].
  rewrite strip_tags_equation_2.
  case_decide; [done|]. by rewrite IH.
Qed.

(** [strip_tags] only deletes characters. *)
Lemma strip_tags_sublist (s : str) : sublist (strip_tags s) s.
Proof.
  remember (length s) as n eqn:Hn. revert s Hn.
  induction n as [n IH] using lt_wf_ind. intros [|c t] ->; [done|].
  rewrite strip_tags_equation_2.
  assert (strip_tags t `sublist_of` t) by (eapply IH; [|done]; simpl; lia).
  case_decide; [|by apply sublist_skip].
  destruct (tag_match t) as [k|]; [|by apply sublist_skip].
  apply sublist_cons. etrans; [|apply sublist_drop].
  eapply IH; [|done]. rewrite length_drop. simpl. lia.
Qed.

Lemma strip_tags_app_no_lt (a s : str) :
  Forall (λ c, c ≠ LT) a → strip_tags (a ++ s) = a ++ strip_tags s.
Proof.
  induction 1 as [|c t Hc _ IH]; [done|]. simpl.
  rewrite strip_tags_equation_2. case_decide; [done|]. by rewrite IH.
Qed.

Lemma tag_body_closed (body b : str) :
  Forall (λ c, c ≠ GT) body →
  tag_body (body ++ GT :: b) = Some (length body).
Proof.
  induction 1 as [|c t Hc _ IH]; simpl.
  - done.
  - case_decide; [done|]. by rewrite IH.
Qed.

(** A '<', a non-empty run without '>' and a '>' go away together. *)
Lemma strip_tags_tag (body b : str) :
  body ≠ [] → Forall (λ c, c ≠ GT) body →
  strip_tags (LT :: body ++ GT :: b) = strip_tags b.
Proof.
  intros Hne Hbody. rewrite strip_tags_equation_2.
  rewrite decide_True by done. unfold tag_match.
  rewrite tag_body_closed by done.
  destruct body as [|c body]; [done|]. simpl length.
  rewrite (cons_middle GT), (assoc_L (++)).
  replace (S (S (length body))) with (length ((c :: body) ++ [GT]))
    by (rewrite length_app; simpl; lia).
  by rewrite drop_app_length.
Qed.

Lemma kept_spec (c : char) :
  kept c = true ↔ (19968 ≤ c ≤ 40869)%N ∨ c ∈ punctuation.
Proof.
  unfold kept. rewrite orb_true_iff, andb_true_iff, !N.leb_le.
  by rewrite bool_decide_eq_true.
Qed.

Lemma elem_of_punctuation (c : char) :
  c ∈ punctuation →
  (c = 65292 ∨ c = 12290 ∨ c = 65281 ∨ c = 65311 ∨ c = 65307
   ∨ c = 65306 ∨ c = 12289 ∨ c = 65288 ∨ c = 65289 ∨ c = 12304
   ∨ c = 12305)%N.
Proof. unfold punctuation. rewrite !elem_of_cons, elem_of_nil. tauto. Qed.

Lemma is_space_bound (c : char) : is_space c = true → (c ≤ 12288)%N.
Proof.
  unfold is_space.
  rewrite !orb_true_iff, !andb_true_iff, !N.leb_le, !N.eqb_eq. lia.
Qed.

Lemma kept_not_space (c : char) : kept c = true → is_space c = false.
Proof.
  intros Hk. apply not_true_is_false. intros Hs. revert Hs.
  unfold is_space.
  rewrite !orb_true_iff, !andb_true_iff, !N.leb_le, !N.eqb_eq.
  apply kept_spec in Hk as [?|?%elem_of_punctuation]; lia.
Qed.

Lemma kept_not_alnum (c : char) : kept c = true → alnum_space_plus c = false.
Proof.
  intros Hk. unfold alnum_space_plus. rewrite (kept_not_space c Hk).
  apply not_true_is_false.
  rewrite !orb_true_iff, !andb_true_iff, !N.leb_le, !N.eqb_eq.
  apply kept_spec in Hk as [?|?%elem_of_punctuation]; lia.
Qed.

Lemma kept_not_angle (c : char) : kept c = true → c ≠ LT ∧ c ≠ GT.
Proof.
  unfold LT, GT.
  intros [?|?%elem_of_punctuation]%kept_spec; lia.
Qed.

Lemma clean_kept (x : str) : Forall (λ c, kept c = true) (clean x).
Proof. apply Forall_filter_self. Qed.

(** A text made of kept characters only is left as it is. *)
Lemma clean_fixed (y : str) : Forall (λ c, kept c = true) y → clean y = y.
Proof.
  intros Hy. unfold clean, remove_tags, remove_alnum, keep_chinese.
  rewrite strip_tags_no_lt
    by (eapply Forall_impl; [done|]; intros c Hc; by apply kept_not_angle).
  rewrite (filter_all (λ c, alnum_space_plus c = false))
    by (eapply Forall_impl; [done|]; apply kept_not_alnum).
  by apply filter_all.
Qed.

End CleanerFacts.

(** C3.  The cleaner is idempotent: cleaning the output of the cleaner
    again (tag stripping, then removal of ASCII letters, digits and
    whitespace, then restriction to ideographs and the listed punctuation)
    changes nothing: [clean (clean x) = clean x] for every text [x]. *)
Theorem clean_idempotent (x : str) : clean (clean x) = clean x.
Proof. apply clean_fixed, clean_kept. Qed.

(** C8.  For every input, every character of the cleaner's output is an
    ideograph of the range U+4E00..U+9FA5 or one of the listed punctuation
    marks; the output is the input with characters deleted and nothing
    added; no ASCII letter or digit and no angle bracket is left in it; and
    a tag sequence, from its '<' to its '>', is removed with all it holds,
    whatever that is. *)
Theorem clean_charset (x : str) :
  Forall (λ c, (19968 ≤ c ≤ 40869)%N ∨ c ∈ punctuation) (clean x)
  ∧ sublist (clean x) x
  ∧ Forall (λ c, ¬ ascii_alnum c ∧ c ≠ LT ∧ c ≠ GT) (clean x)
  ∧ (∀ a body b,
       x = a ++ LT :: body ++ GT :: b →
       Forall (λ c, c ≠ LT) a →
       body ≠ [] → Forall (λ c, c ≠ GT) body →
       clean x = clean a ++ clean b).
Proof.
  split_and!.
  - eapply Forall_impl; [apply clean_kept|]. intros c. apply kept_spec.
  - unfold clean, keep_chinese, remove_alnum, remove_tags.
    etrans; [apply sublist_filter|]. etrans; [apply sublist_filter|].
    apply strip_tags_sublist.
  - eapply Forall_impl; [apply clean_kept|]. intros c Hc. split.
    + unfold ascii_alnum.
      apply kept_spec in Hc as [?|?%elem_of_punctuation]; lia.
    + by apply kept_not_angle.
  - intros a body b -> Ha Hne Hbody.
    unfold clean, keep_chinese, remove_alnum, remove_tags.
    rewrite strip_tags_app_no_lt, strip_tags_tag by done.
    rewrite (strip_tags_no_lt a) by done.
    by rewrite (filter_app _ a), (filter_app _ (filter _ a)).
Qed.

Lemma clean_charset_witness :
  clean (lit "新闻<b class=x>标题</b>：ok 2024！")
  = clean (lit "新闻") ++ clean (lit "标题</b>：ok 2024！")
  ∧ clean (lit "新闻<b class=x>标题</b>：ok 2024！")
    = lit "新闻标题：！".
Proof.
  split; [|reflexivity].
  destruct (clean_charset (lit "新闻<b class=x>标题</b>：ok 2024！"))
    as (_ & _ & _ & H).
  apply (H (lit "新闻") (lit "b class=x") (lit "标题</b>：ok 2024！")).
  - reflexivity.
  - vm_compute. repeat constructor; discriminate.
  - discriminate.
  - vm_compute. repeat constructor; discriminate.
Defined.

(** ** Aggregator *)

Section AggregatorFacts.

Lemma incr_total (m : Counter) (e : str) : total (incr m e) = (total m + 1)%Z.
Proof.
  unfold total, values.
  induction m as [|[k n] m IH]; csimpl; [done|].
  case_decide; csimpl in *; lia.
Qed.

Lemma incr_keys (m : Counter) (e : str) :
  keys (incr m e) = if decide (e ∈ keys m) then keys m else keys m ++ [e].
Proof.
  unfold keys. induction m as [|[k n] m IH]; csimpl.
  - done.
  - destruct (decide (k = e)) as [->|Hk]; csimpl.
    + by rewrite decide_True by left.
    + rewrite IH. destruct (decide (e ∈ m.*1)).
      * by rewrite decide_True by by right.
      * rewrite decide_False; [done|].
        intros [?|?]%elem_of_cons; congruence.
Qed.

Lemma incr_get (m : Counter) (e w : str) :
  get (incr m e) w = (get m w + if decide (e = w) then 1 else 0)%Z.
Proof.
  induction m as [|[k n] m IH]; simpl.
  - repeat case_decide; lia.
  - destruct (decide (k = e)) as [->|Hk]; simpl.
    + repeat case_decide; lia.
    + rewrite IH. repeat case_decide; subst; try done; lia.
Qed.

Lemma count_elements_snoc (l : list str) (w : str) :
  count_elements (l ++ [w]) = incr (count_elements l) w.
Proof. unfold count_elements. by rewrite foldl_app. Qed.

Lemma count_elements_total (l : list str) :
  total (count_elements l) = Z.of_nat (length l).
Proof.
  induction l as [|w l IH] using rev_ind; [done|].
  rewrite count_elements_snoc, incr_total, IH, length_app. simpl. lia.
Qed.

Lemma count_elements_keys (l : list str) (w : str) :
  w ∈ keys (count_elements l) ↔ w ∈ l.
Proof.
  induction l as [|x l IH] using rev_ind.
  - unfold count_elements, keys. simpl. by rewrite !elem_of_nil.
  - rewrite count_elements_snoc, incr_keys, elem_of_app, list_elem_of_singleton.
    case_decide; [|rewrite elem_of_app, list_elem_of_singleton; tauto].
    split; [tauto|]. intros [?| ->]; tauto.
Qed.

Lemma count_elements_NoDup (l : list str) : NoDup (keys (count_elements l)).
Proof.
  induction l as [|x l IH] using rev_ind; [constructor|].
  rewrite count_elements_snoc, incr_keys. case_decide; [done|].
  apply NoDup_app. split_and!; [done| |apply NoDup_singleton].
  intros y Hy ->%list_elem_of_singleton. done.
Qed.

Lemma count_elements_get (l : list str) (w : str) :
  get (count_elements l) w = occurrences w l.
Proof.
  unfold occurrences. induction l as [|x l IH] using rev_ind; [done|].
  rewrite count_elements_snoc, incr_get, IH, filter_app, length_app.
  rewrite filter_cons, filter_nil. case_decide; simpl; lia.
Qed.

(** In a dict with distinct keys, an item holds what [get] returns. *)
Lemma get_item (m : Counter) (w : str) (n : Z) :
  NoDup (keys m) → (w, n) ∈ m → get m w = n.
Proof.
  unfold keys. induction m as [|[k c] m IH]; simpl.
  - by intros _ ?%elem_of_nil.
  - intros [Hk Hm]%NoDup_cons [[= -> ->]|Hin]%elem_of_cons.
    + by rewrite decide_True.
    + rewrite decide_False; [by apply IH|]. intros ->. apply Hk.
      by apply (list_elem_of_fmap_2 fst _ (w, n)).
Qed.

Lemma count_elements_item (l : list str) (w : str) (n : Z) :
  (w, n) ∈ count_elements l → n = occurrences w l ∧ w ∈ l.
Proof.
  intros Hin. split.
  - rewrite <-count_elements_get. symmetry.
    by apply get_item; [apply count_elements_NoDup|].
  - apply count_elements_keys. by apply (list_elem_of_fmap_2 fst _ (w, n)).
Qed.

End AggregatorFacts.

(** C4.  For every token stream, the counts of the table built from it sum
    to the length of the stream, and the keys of the table are the distinct
    tokens of the stream: no key occurs twice, and a word is a key exactly
    when it occurs in the stream.  This is the table [clean_and_segment]
    returns next to its stream. *)
Theorem count_elements_invariant (seg_list : list str) :
  total (count_elements seg_list) = Z.of_nat (length seg_list)
  ∧ NoDup (keys (count_elements seg_list))
  ∧ (∀ word, word ∈ keys (count_elements seg_list) ↔ word ∈ seg_list)
  ∧ (∀ lcut STOPWORDS text,
       (clean_and_segment lcut STOPWORDS text).2
       = count_elements (clean_and_segment lcut STOPWORDS text).1).
Proof.
  split_and!.
  - apply count_elements_total.
  - apply count_elements_NoDup.
  - apply count_elements_keys.
  - done.
Qed.

(** ** Tokenizer *)

Section TokenizerFacts.

Lemma lstrip_nil (s : str) :
  lstrip s = [] ↔ Forall (λ c, is_space c = true) s.
Proof.
  induction s as [|c s IH]; simpl; [by split|].
  destruct (is_space c) eqn:Hc.
  - rewrite IH. split; [by constructor|]. by intros [_ ?]%Forall_cons.
  - split; [done|]. intros [? _]%Forall_cons. congruence.
Qed.

Lemma lstrip_all_space (s : str) :
  Forall (λ c, is_space c = true) (lstrip s)
  ↔ Forall (λ c, is_space c = true) s.
Proof.
  induction s as [|c s IH]; simpl; [done|].
  destruct (is_space c) eqn:Hc; [|done].
  rewrite IH. split; [by constructor|]. by intros [_ ?]%Forall_cons.
Qed.

(** [word.strip()] is falsy exactly for a word made of whitespace only. *)
Lemma strip_truthy (word : str) :
  truthy (strip word) = true ↔ ¬ Forall (λ c, is_space c = true) word.
Proof.
  rewrite <-lstrip_all_space, <-(Forall_reverse _ (lstrip word)), <-lstrip_nil.
  unfold strip, rstrip.
  destruct (lstrip (reverse (lstrip word))) as [|c l]; simpl; [naive_solver|].
  rewrite reverse_cons. destruct (reverse l); naive_solver.
Qed.

End TokenizerFacts.

(** C5, as the code has it.  For every segmentation output and every
    stopword set, the post-filter returns exactly the tokens that are not
    in the stopword set, are longer than one character and are not made of
    whitespace only, in their original order; so every token of the output
    is longer than one character and is not a stopword. *)
Theorem post_filter_spec (STOPWORDS : gset str) (seg_list : list str) :
  post_filter STOPWORDS seg_list
  = filter (λ word, (word ∉ STOPWORDS) ∧ (1 < length word)%nat
                    ∧ ¬ Forall (λ c, is_space c = true) word) seg_list
  ∧ sublist (post_filter STOPWORDS seg_list) seg_list
  ∧ Forall (λ word, (1 < length word)%nat ∧ word ∉ STOPWORDS)
      (post_filter STOPWORDS seg_list).
Proof.
  split_and!.
  - apply list_filter_iff. intros word. unfold valid_word.
    by rewrite strip_truthy.
  - apply sublist_filter.
  - apply Forall_forall. intros word [Hv _]%list_elem_of_filter.
    unfold valid_word in Hv. tauto.
Qed.

(** C5 as stated fails: a token of two spaces is not a stopword and is
    longer than one character, yet line 75 drops it. *)
Lemma post_filter_drops_blank :
  let seg_list := [lit "  "] in
  let STOPWORDS : gset str := ∅ in
  filter (λ word, (word ∉ STOPWORDS) ∧ (1 < length word)%nat) seg_list
    = seg_list
  ∧ post_filter STOPWORDS seg_list = []
  ∧ post_filter STOPWORDS seg_list
    ≠ filter (λ word, (word ∉ STOPWORDS) ∧ (1 < length word)%nat)
        seg_list.
Proof. by vm_compute. Qed.

(** Where no token is blank, which is what a segmentation of cleaned text
    gives, the extra test of line 75 drops nothing. *)
Lemma post_filter_no_blank (STOPWORDS : gset str) (seg_list : list str) :
  Forall (λ word, ¬ Forall (λ c, is_space c = true) word) seg_list →
  post_filter STOPWORDS seg_list
  = filter (λ word, (word ∉ STOPWORDS) ∧ (1 < length word)%nat) seg_list.
Proof.
  intros Hall. induction Hall as [|word l Hw _ IH]; [done|].
  unfold post_filter in *. rewrite !filter_cons, IH.
  apply strip_truthy in Hw. unfold valid_word.
  destruct (decide _), (decide _); try done; exfalso; tauto.
Qed.

(** ** Filter and ranking *)

Section SortedFacts.

Context {A : Type} (R : relation A).

Lemma StronglySorted_sublist (l k : list A) :
  sublist l k → StronglySorted R k → StronglySorted R l.
Proof.
  induction 1 as [|x l k Hlk IH|x l k Hlk IH]; [done| |].
  - intros [Hx Hk]%StronglySorted_cons. apply StronglySorted_cons.
    split; [|by apply IH]. apply Forall_forall. intros y Hy.
    rewrite Forall_forall in Hx. apply Hx. by eapply elem_of_sublist.
  - intros [_ Hk]%StronglySorted_cons. by apply IH.
Qed.

Lemma StronglySorted_lookup (l : list A) (i j : nat) (a b : A) :
  StronglySorted R l → i < j →
  l !! i = Some a → l !! j = Some b → R a b.
Proof.
  intros Hl. revert i j. induction Hl as [|x l Hl IH Hx]; intros i j Hij.
  - by rewrite lookup_nil.
  - destruct j as [|j]; [lia|]. destruct i as [|i]; simpl.
    + intros [= ->] Hb. rewrite Forall_forall in Hx.
      apply Hx. by eapply list_elem_of_lookup_2.
    + apply IH. lia.
Qed.

Lemma StronglySorted_impl_elem (R' : relation A) (l : list A) :
  (∀ x y, x ∈ l → y ∈ l → R x y → R' x y) →
  StronglySorted R l → StronglySorted R' l.
Proof.
  intros HR Hl. induction Hl as [|x l Hl IH Hx]; [constructor|].
  constructor.
  - apply IH. intros y z Hy Hz. apply HR; by right.
  - rewrite Forall_forall in *. intros y Hy.
    apply HR; [by left|by right|by apply Hx].
Qed.

End SortedFacts.

Section FirstIndex.

Lemma first_index_lt (w : str) (l : list str) :
  w ∈ l → first_index w l < length l.
Proof.
  induction l as [|x l IH]; simpl; [by intros ?%elem_of_nil|].
  intros Hw. case_decide; [lia|].
  apply elem_of_cons in Hw as [->|Hw]; [done|]. apply IH in Hw. lia.
Qed.

Lemma first_index_app_l (w : str) (l k : list str) :
  w ∈ l → first_index w (l ++ k) = first_index w l.
Proof.
  induction l as [|x l IH]; simpl; [by intros ?%elem_of_nil|].
  intros Hw. case_decide; [done|].
  apply elem_of_cons in Hw as [->|Hw]; [done|]. by rewrite IH.
Qed.

Lemma first_index_snoc_new (w : str) (l : list str) :
  w ∉ l → first_index w (l ++ [w]) = length l.
Proof.
  induction l as [|x l IH]; simpl.
  - intros _. by rewrite decide_True.
  - intros [Hx Hl]%not_elem_of_cons. rewrite decide_False by done.
    by rewrite IH.
Qed.

(** The keys of a counter stand in the order in which the words first
    occur in the stream. *)
Lemma count_elements_order (l : list str) :
  StronglySorted (λ a b, first_index a l < first_index b l)
    (keys (count_elements l)).
Proof.
  induction l as [|w l IH] using rev_ind; [constructor|].
  rewrite count_elements_snoc, incr_keys.
  assert (StronglySorted
            (λ a b, first_index a (l ++ [w]) < first_index b (l ++ [w]))
            (keys (count_elements l))) as Hold.
  { eapply StronglySorted_impl_elem; [|done].
    intros x y Hx Hy Hxy. simpl in Hxy.
    apply (proj1 (count_elements_keys _ _)) in Hx, Hy.
    by rewrite !first_index_app_l by done. }
  case_decide as Hw; [done|].
  apply StronglySorted_app_2; [|done|repeat constructor].
  intros x y Hx ->%list_elem_of_singleton.
  apply (proj1 (count_elements_keys _ _)) in Hx.
  rewrite count_elements_keys in Hw.
  rewrite first_index_app_l, first_index_snoc_new by done.
  by apply first_index_lt.
Qed.

Lemma count_elements_items_order (l : list str) :
  StronglySorted (λ a b : str * Z, first_index a.1 l < first_index b.1 l)
    (count_elements l).
Proof.
  pose proof (count_elements_order l) as H. unfold keys in H.
  induction (count_elements l) as [|a c IH]; [constructor|].
  rewrite fmap_cons, StronglySorted_cons, Forall_fmap in H.
  destruct H as [Ha Hc]. constructor; [by apply IH|done].
Qed.

End FirstIndex.

Section RankerFacts.

Lemma insert_desc_Permutation (a : str * Z) (l : list (str * Z)) :
  insert_desc a l ≡ₚ a :: l.
Proof.
  induction l as [|y l IH]; simpl; [done|].
  case_decide; [|done]. rewrite IH. apply Permutation_swap.
Qed.

Lemma sorted_desc_Permutation (l : list (str * Z)) : sorted_desc l ≡ₚ l.
Proof.
  induction l as [|a l IH]; simpl; [done|].
  by rewrite insert_desc_Permutation, IH.
Qed.

(** The sort is stable: where the input is in the order [R], the output
    goes by decreasing count, and by [R] among equal counts. *)
Section Stable.

Variable R : relation (str * Z).

Lemma insert_desc_sorted (x : str * Z) (s : list (str * Z)) :
  StronglySorted (by_count_then R) s → Forall (R x) s →
  StronglySorted (by_count_then R) (insert_desc x s).
Proof.
  induction 1 as [|y s Hs IH Hy]; simpl; [repeat constructor|].
  intros [Hxy Hxs]%Forall_cons. case_decide as Hlt.
  - constructor; [by apply IH|].
    rewrite insert_desc_Permutation. constructor; [by left|done].
  - constructor; [by constructor|].
    assert (∀ z, (z.2 ≤ x.2)%Z → R x z → by_count_then R x z) as Hle.
    { intros z Hz HR. destruct (decide (z.2 < x.2)%Z); [by left|].
      right. split; [lia|done]. }
    constructor; [apply Hle; [lia|done]|].
    rewrite Forall_forall in *. intros z Hz. apply Hle; [|by apply Hxs].
    destruct (Hy z Hz) as [?|[? _]]; lia.
Qed.

Lemma sorted_desc_sorted (l : list (str * Z)) :
  StronglySorted R l → StronglySorted (by_count_then R) (sorted_desc l).
Proof.
  induction 1 as [|x l Hl IH Hx]; simpl; [constructor|].
  apply insert_desc_sorted; [done|]. by rewrite sorted_desc_Permutation.
Qed.

End Stable.

Lemma alloc_deref_new (σ : store) (v : Counter) :
  deref (alloc σ v).1 (alloc σ v).2 = v.
Proof. unfold deref, alloc. cbn [fst snd]. by rewrite list_lookup_middle. Qed.

Lemma alloc_lookup_old (σ : store) (v : Counter) (r : loc) :
  r < length σ → (alloc σ v).1 !! r = σ !! r.
Proof. intros Hr. unfold alloc. cbn [fst]. by rewrite lookup_app_l. Qed.

(** The store and the address a call returns. *)
Lemma filter_low_freq_words_eq (σ : store) (r : loc) (m : Z) :
  filter_low_freq_words σ r m
  = (σ ++ [retained (deref σ r) m; retained (deref σ r) m], S (length σ)).
Proof.
  unfold filter_low_freq_words.
  pose proof (alloc_deref_new σ (retained (deref σ r) m)) as Hd.
  unfold alloc in *. cbn [fst snd] in Hd. rewrite Hd.
  rewrite length_app, <-(assoc_L (++)). simpl. do 2 f_equal. lia.
Qed.

(** The returned table holds the comprehension of line 83. *)
Lemma filtered_retained (σ : store) (r : loc) (m : Z) :
  filtered σ r m = retained (deref σ r) m.
Proof.
  unfold filtered, filter_low_freq_words.
  pose proof (alloc_deref_new σ (retained (deref σ r) m)) as Hd.
  destruct (alloc σ (retained (deref σ r) m)) as [σ1 d]. simpl in Hd.
  pose proof (alloc_deref_new σ1 (deref σ1 d)) as Hc.
  destruct (alloc σ1 (deref σ1 d)) as [σ2 c]. simpl in Hc. congruence.
Qed.

Lemma elem_of_retained (wc : Counter) (m : Z) (item : str * Z) :
  item ∈ retained wc m ↔ item ∈ wc ∧ (m ≤ item.2)%Z.
Proof. unfold retained. rewrite list_elem_of_filter. tauto. Qed.

Lemma ranked_sorted (seg_list : list str) (m : Z) :
  StronglySorted (ranks_before seg_list)
    (sorted_desc (retained (count_elements seg_list) m)).
Proof.
  apply (sorted_desc_sorted
           (λ a b, first_index a.1 seg_list < first_index b.1 seg_list)).
  eapply StronglySorted_sublist; [apply sublist_filter|].
  apply count_elements_items_order.
Qed.

End RankerFacts.

(** C1.  For the table of any token stream and any threshold, the list
    [most_common(20)] gives for the filtered table goes by decreasing
    count; two entries of equal count stand in the order in which their
    words first occur in the stream; the list has at most 20 entries;
    every entry is a word of the stream with its number of occurrences,
    which reaches the threshold; and what is cut off, if anything, ranks
    after every entry of the list, which then has exactly 20 entries. *)
Theorem most_common_ranking (seg_list : list str) (σ : store)
    (word_count : loc) (min_freq : Z) :
  σ !! word_count = Some (count_elements seg_list) →
  let ranked := most_common 20 (filtered σ word_count min_freq) in
  (∀ i j a b, i < j → ranked !! i = Some a → ranked !! j = Some b →
     (b.2 ≤ a.2)%Z
     ∧ (a.2 = b.2 → first_index a.1 seg_list < first_index b.1 seg_list))
  ∧ length ranked ≤ 20
  ∧ (∀ word count, (word, count) ∈ ranked →
       count = occurrences word seg_list ∧ (min_freq ≤ count)%Z)
  ∧ ∃ rest,
      ranked ++ rest ≡ₚ retained (count_elements seg_list) min_freq
      ∧ (∀ a b, a ∈ ranked → b ∈ rest → ranks_before seg_list a b)
      ∧ (rest ≠ [] → length ranked = 20).
Proof.
  intros Hwc ranked. subst ranked. rewrite filtered_retained.
  unfold deref. rewrite Hwc. simpl. unfold most_common.
  pose proof (ranked_sorted seg_list min_freq) as Hsorted.
  set (s := sorted_desc (retained (count_elements seg_list) min_freq)) in *.
  split_and!.
  - intros i j a b Hij Ha Hb.
    assert (ranks_before seg_list a b) as Hab.
    { eapply (StronglySorted_lookup _ (take 20 s) i j); [|done..].
      eapply StronglySorted_sublist; [apply sublist_take|done]. }
    unfold ranks_before in Hab. lia.
  - rewrite length_take. lia.
  - intros word count Hin.
    assert ((word, count) ∈ retained (count_elements seg_list) min_freq) as Hr.
    { rewrite <-(sorted_desc_Permutation (retained _ _)).
      eapply elem_of_sublist; [done|apply sublist_take]. }
    apply elem_of_retained in Hr as [Hitem Hm].
    apply count_elements_item in Hitem as [-> _]. done.
  - exists (drop 20 s). split_and!.
    + rewrite take_drop. apply sorted_desc_Permutation.
    + rewrite <-(take_drop 20 s) in Hsorted.
      intros a b. by apply StronglySorted_app_1_elem_of.
    + intros Hrest. rewrite length_take.
      destruct (decide (length s ≤ 20)) as [Hle|]; [|lia].
      by rewrite drop_ge in Hrest.
Qed.

Lemma most_common_ranking_witness :
  let ranked := most_common 20 (filtered Examples.objects_of_stream 0 2) in
  ranked = [(lit "B", 3%Z); (lit "A", 2%Z)]
  ∧ (∀ i j a b, i < j → ranked !! i = Some a → ranked !! j = Some b →
       (b.2 ≤ a.2)%Z
       ∧ (a.2 = b.2 →
          first_index a.1 Examples.stream < first_index b.1 Examples.stream))
  ∧ length ranked ≤ 20.
Proof.
  pose proof (most_common_ranking Examples.stream Examples.objects_of_stream
                0 2 eq_refl) as (Horder & Hlen & _).
  split; [reflexivity|]. split; [exact Horder|exact Hlen].
Defined.

(** C6.  Filtering is antitone in the threshold: for any table and
    thresholds [m1 < m2], every entry of the table returned for [m2] is
    an entry of the table returned for [m1] (in the same order); and an
    entry of the input is in the table returned for [m] exactly when its
    count is at least [m]. *)
Theorem filter_antitone (σ : store) (word_count : loc) (m1 m2 : Z) :
  (m1 < m2)%Z →
  filtered σ word_count m2 ⊆ filtered σ word_count m1
  ∧ sublist (filtered σ word_count m2) (filtered σ word_count m1)
  ∧ (∀ m item,
       item ∈ filtered σ word_count m
       ↔ item ∈ deref σ word_count ∧ (m ≤ item.2)%Z).
Proof.
  intros Hm. rewrite !filtered_retained.
  assert (retained (deref σ word_count) m2
          = retained (retained (deref σ word_count) m1) m2) as ->.
  { unfold retained. rewrite list_filter_filter.
    apply list_filter_iff. intros item. lia. }
  split_and!.
  - intros item [? _]%elem_of_retained. done.
  - apply sublist_filter.
  - intros m item. rewrite filtered_retained. apply elem_of_retained.
Qed.

Lemma filter_antitone_witness :
  filtered Examples.objects_of_stream 0 3 ⊆ filtered Examples.objects_of_stream 0 2
  ∧ filtered Examples.objects_of_stream 0 3 = [(lit "B", 3%Z)]
  ∧ filtered Examples.objects_of_stream 0 2 = [(lit "A", 2%Z); (lit "B", 3%Z)].
Proof.
  split; [|split; reflexivity].
  apply (filter_antitone Examples.objects_of_stream 0 2 3). lia.
Defined.

(** C10.  [filter_low_freq_words] writes to no object it was given: after
    the call the input table is what it was, as is every other object that
    existed; the table returned is a new object, at an address that held
    nothing before; and every entry of the result is an entry of the input,
    word and count, in the input's order, so a word of the result has the
    count it has in the input. *)
Theorem filter_low_freq_words_frame (σ : store) (word_count : loc)
    (min_freq : Z) (wc : Counter) :
  σ !! word_count = Some wc →
  let '(σ', r) := filter_low_freq_words σ word_count min_freq in
  σ' !! word_count = Some wc
  ∧ σ `prefix_of` σ'
  ∧ σ !! r = None ∧ r ≠ word_count ∧ is_Some (σ' !! r)
  ∧ (∀ item, item ∈ deref σ' r → item ∈ wc)
  ∧ sublist (deref σ' r) wc
  ∧ (NoDup (keys wc) →
     ∀ word, word ∈ keys (deref σ' r) → get (deref σ' r) word = get wc word).
Proof.
  intros Hwc.
  assert (deref σ word_count = wc) as Hd by (unfold deref; by rewrite Hwc).
  rewrite filter_low_freq_words_eq, Hd.
  set (v := retained wc min_freq).
  assert (word_count < length σ) as Hlt by by eapply lookup_lt_Some.
  assert (sublist v wc) as Hsub by apply sublist_filter.
  assert (deref (σ ++ [v; v]) (S (length σ)) = v) as ->.
  { unfold deref. rewrite (cons_middle v σ [v]), (assoc_L (++)).
    rewrite (list_lookup_middle (σ ++ [v]) [] v); [done|].
    rewrite length_app. simpl. lia. }
  split_and!.
  - by apply lookup_app_l_Some.
  - by eexists.
  - apply lookup_ge_None. lia.
  - lia.
  - apply lookup_lt_is_Some. rewrite length_app. simpl. lia.
  - intros item Hitem. by eapply elem_of_sublist.
  - done.
  - intros Hnd word [[w c] [-> Hitem]]%list_elem_of_fmap. simpl.
    assert (NoDup (keys v)) as Hnd'.
    { apply (sublist_NoDup (keys v) (keys wc)); [exact Hnd|].
      unfold keys. by apply fmap_sublist. }
    rewrite (get_item _ w c Hnd' Hitem).
    symmetry. apply get_item; [done|]. by eapply elem_of_sublist.
Qed.

Lemma filter_low_freq_words_frame_witness :
  let '(σ', r) := filter_low_freq_words Examples.objects_of_stream 0 2 in
  σ' !! 0 = Some (count_elements Examples.stream)
  ∧ Examples.objects_of_stream `prefix_of` σ'
  ∧ Examples.objects_of_stream !! r = None
  ∧ deref σ' r = [(lit "A", 2%Z); (lit "B", 3%Z)].
Proof.
  pose proof (filter_low_freq_words_frame Examples.objects_of_stream 0 2
                (count_elements Examples.stream) eq_refl) as H.
  destruct (filter_low_freq_words Examples.objects_of_stream 0 2) as [σ' r] eqn:E.
  destruct H as (H1 & H2 & H3 & _).
  split; [exact H1|]. split; [exact H2|]. split; [exact H3|].
  vm_compute in E. injection E as <- <-. reflexivity.
Defined.

(** ** Extractor *)

Section ExtractorFacts.

Variable lower : str → str.

Lemma join_nil (sep : str) (parts : list str) :
  Forall (λ p, p ≠ []) parts → join sep parts = [] → parts = [].
Proof.
  destruct 1 as [|p ps Hp Hps]; [done|]. simpl.
  destruct ps; [done|]. by destruct p.
Qed.

(** A list of tags produces no text exactly when each of them is empty
    once trimmed. *)
Lemma tags_text_nil (content_tags : list node) :
  tags_text content_tags = []
  ↔ Forall (λ tag, strip (get_text tag) = []) content_tags.
Proof.
  unfold tags_text. split.
  - intros Hj. apply join_nil in Hj.
    + apply fmap_nil_inv in Hj. apply Forall_forall. intros tag Htag.
      destruct (strip (get_text tag)) eqn:Ht; [done|].
      assert (tag ∈ filter (λ tag, truthy (strip (get_text tag)) = true)
                content_tags) as Hin
        by (apply list_elem_of_filter; by rewrite Ht).
      rewrite Hj in Hin. by apply elem_of_nil in Hin.
    + apply Forall_fmap, Forall_forall.
      intros tag [Ht _]%list_elem_of_filter. simpl.
      by destruct (strip (get_text tag)).
  - intros Hall. induction Hall as [|tag l Ht _ IH]; [done|].
    rewrite filter_cons_False; [done|]. by rewrite Ht.
Qed.

Lemma extract_unfold (doc : soup) :
  extract lower doc
  = result_of
      (tags_text (or_ (tier1 (decompose_all doc))
                    (or_ (tier2 lower (decompose_all doc))
                       (tier3 (decompose_all doc))))).
Proof. done. Qed.

Lemma no_content_truthy : truthy no_content = true.
Proof. done. Qed.

End ExtractorFacts.

(** C2, as the code has it.  The extractor tries the three tiers in order
    and stops at the first tier that finds at least one element; the result
    is made from that tier alone, its text when that is not empty and the
    failure otherwise.  So a first tier whose elements are all empty once
    trimmed makes the extraction fail: the next tier is not tried.
    Whenever the extraction succeeds, its text is the text of the first
    tier whose text is not empty. *)
Theorem extract_tiers (lower : str → str) (doc : soup) :
  let d := decompose_all doc in
  (tier1 d ≠ [] → extract lower doc = result_of (tags_text (tier1 d)))
  ∧ (tier1 d = [] → tier2 lower d ≠ [] →
     extract lower doc = result_of (tags_text (tier2 lower d)))
  ∧ (tier1 d = [] → tier2 lower d = [] →
     extract lower doc = result_of (tags_text (tier3 d)))
  ∧ (tier1 d ≠ [] → Forall (λ tag, strip (get_text tag) = []) (tier1 d) →
     extract lower doc = (None, no_content))
  ∧ ((extract lower doc).1 ≠ None →
     extract lower doc = extract_by_text lower doc).
Proof.
  intros d. rewrite extract_unfold. fold d. split_and!.
  - intros H1. unfold or_ at 1. by destruct (tier1 d).
  - intros -> H2. simpl. unfold or_. by destruct (tier2 lower d).
  - by intros -> ->.
  - intros H1 Hall%tags_text_nil. unfold or_ at 1.
    destruct (tier1 d); [done|]. simpl. by rewrite Hall.
  - unfold extract_by_text, first_nonempty_text, result_of, or_. fold d.
    destruct (tier1 d) as [|t1 l1]; cbn [truthy].
    + change (tags_text []) with (@nil N). cbn [truthy].
      destruct (tier2 lower d) as [|t2 l2]; cbn [truthy].
      * change (tags_text []) with (@nil N). by cbn [truthy].
      * generalize (tags_text (t2 :: l2)).
        intros [|c t]; simpl; [by intros []|done].
    + generalize (tags_text (t1 :: l1)).
      intros [|c t]; simpl; [by intros []|done].
Qed.

Lemma extract_tiers_witness :
  tier1 (decompose_all Examples.doc_empty_article) ≠ []
  ∧ extract ascii_lower Examples.doc_empty_article = (None, no_content).
Proof.
  assert (tier1 (decompose_all Examples.doc_empty_article) ≠ []) as H1
    by (vm_compute; discriminate).
  split; [exact H1|].
  destruct (extract_tiers ascii_lower Examples.doc_empty_article)
    as (_ & _ & _ & H & _).
  apply H; [exact H1|]. vm_compute. repeat constructor.
Defined.

(** C2 as stated fails: in this document the first tier finds an article
    element whose text is empty, the paragraph tier would give text, and
    the extraction fails where the rule of the first non-empty text gives
    that text. *)
Lemma extract_no_fall_through :
  let d := decompose_all Examples.doc_empty_article in
  tags_text (tier1 d) = []
  ∧ tags_text (tier2 ascii_lower d) = []
  ∧ tags_text (tier3 d) = lit "正文内容"
  ∧ extract ascii_lower Examples.doc_empty_article = (None, no_content)
  ∧ extract_by_text ascii_lower Examples.doc_empty_article
    = (Some (lit "正文内容"), [])
  ∧ extract ascii_lower Examples.doc_empty_article
    ≠ extract_by_text ascii_lower Examples.doc_empty_article.
Proof. by vm_compute. Qed.

(** C9.  When every tier yields empty text the extractor returns the
    failure, which carries a message; and whatever the document, the result
    is either that failure or a text that is not empty, so an empty string
    is never returned as a success.  The same holds for
    [crawl_url_article], whose other failure carries a message too. *)
Theorem extract_failure (lower : str → str) (doc : soup) :
  let d := decompose_all doc in
  (tags_text (tier1 d) = [] → tags_text (tier2 lower d) = [] →
   tags_text (tier3 d) = [] → extract lower doc = (None, no_content))
  ∧ no_content ≠ []
  ∧ (extract lower doc = (None, no_content)
     ∨ ∃ text, text ≠ [] ∧ extract lower doc = (Some text, []))
  ∧ (∀ fetch url,
       (∃ error, error ≠ []
                 ∧ crawl_url_article lower fetch url = (None, error))
       ∨ ∃ text, text ≠ []
                 ∧ crawl_url_article lower fetch url = (Some text, [])).
Proof.
  intros d.
  assert (extract lower doc = (None, no_content)
          ∨ ∃ text, text ≠ [] ∧ extract lower doc = (Some text, [])) as Hres.
  { rewrite extract_unfold. unfold result_of.
    destruct (tags_text _) as [|c t]; [by left|]. right. by exists (c :: t). }
  split_and!.
  - intros H1 H2 H3. rewrite extract_unfold. fold d. unfold or_.
    destruct (tier1 d); simpl.
    + destruct (tier2 lower d); simpl; [by rewrite H3|by rewrite H2].
    + by rewrite H1.
  - done.
  - done.
  - intros fetch url. unfold crawl_url_article.
    destruct (fetch url) as [doc'|e].
    + rewrite extract_unfold. unfold result_of.
      destruct (tags_text _) as [|c t]; [left|right].
      * by exists no_content.
      * by exists (c :: t).
    + left. exists (lit "爬取失败：" ++ e). by split.
Qed.

Lemma extract_failure_witness :
  extract ascii_lower Examples.doc_scripts_only = (None, no_content).
Proof.
  destruct (extract_failure ascii_lower Examples.doc_scripts_only) as (H & _).
  apply H; reflexivity.
Defined.

(** ** The page *)

Section MainFacts.

Variable lower : str → str.
Variable fetch : str → soup + str.
Variable lcut : str → list str.
Variable STOPWORDS : gset str.

Lemma show_results_unfold (inp : inputs) (st : state) (r : loc)
    (wc : Counter) :
  objects st !! r = Some wc → wc ≠ [] →
  show_results inp st r
  = let v := retained wc (min_freq inp) in
    let st' := State (objects st ++ [v; v]) (word_count st) in
    if negb (truthy v) then (st', [st_warning (min_freq inp)])
    else (st', [st_dataframe (most_common 20 v);
                st_pyecharts (chart_type inp)
                  (generate_chart (chart_type inp) (most_common 20 v))]).
Proof.
  intros Hwc Hne. unfold show_results.
  assert (deref (objects st) r = wc) as Hd by (unfold deref; by rewrite Hwc).
  rewrite filter_low_freq_words_eq, Hd.
  assert (deref (objects st ++ [retained wc (min_freq inp);
                                retained wc (min_freq inp)])
            (S (length (objects st)))
          = retained wc (min_freq inp)) as ->.
  { unfold deref.
    rewrite (cons_middle _ (objects st) [_]), (assoc_L (++)).
    rewrite (list_lookup_middle (objects st ++ [_]) []); [done|].
    rewrite length_app. simpl. lia. }
  by destruct wc.
Qed.

(** A run without a crawl only shows what the session holds. *)
Lemma main_no_crawl (inp : inputs) (st : state) (r : loc) :
  word_count st = Some r → crawl_btn inp && truthy (url inp) = false →
  main lower fetch lcut STOPWORDS inp st = show_results inp st r.
Proof. intros Hr Hc. unfold main. by rewrite Hr, Hc. Qed.

Lemma retained_nil (wc : Counter) (m : Z) :
  Forall (λ item, (item.2 < m)%Z) wc → retained wc m = [].
Proof.
  induction 1 as [|item wc Hi _ IH]; [done|].
  unfold retained in *. rewrite filter_cons_False, IH; [done|]. simpl. lia.
Qed.

Lemma retained_not_nil (wc : Counter) (m : Z) :
  Exists (λ item, (m ≤ item.2)%Z) wc → retained wc m ≠ [].
Proof.
  intros (item & Hin & Hm)%Exists_exists Hnil.
  assert (item ∈ retained wc m) as H by by apply elem_of_retained.
  rewrite Hnil in H. by apply elem_of_nil in H.
Qed.

Lemma most_common_not_nil (c : Counter) : c ≠ [] → most_common 20 c ≠ [].
Proof.
  intros Hc Hnil. apply Hc. unfold most_common in Hnil.
  apply Permutation_nil_r. rewrite <-(sorted_desc_Permutation c).
  by destruct (sorted_desc c).
Qed.

End MainFacts.

(** C7.  Let the session hold a non-empty table and let the threshold be
    above every count of it.  A run of the page then only gives the warning
    that nothing is left after filtering, not an error; the session still
    refers to the same table, which is unchanged.  A further run with a
    threshold that some entry reaches, again without a crawl, shows the
    ranking of that same table: its events are the table of rows and the
    chart, with no request and no segmentation among them, and the table
    is still unchanged. *)
Theorem empty_after_filter (lower : str → str) (fetch : str → soup + str)
    (lcut : str → list str) (STOPWORDS : gset str)
    (inp : inputs) (st : state) (r : loc) (wc : Counter) :
  word_count st = Some r → objects st !! r = Some wc → wc ≠ [] →
  Forall (λ item, (item.2 < min_freq inp)%Z) wc →
  crawl_btn inp = false →
  let '(st', events) := main lower fetch lcut STOPWORDS inp st in
  events = [st_warning (min_freq inp)]
  ∧ word_count st' = Some r ∧ objects st' !! r = Some wc
  ∧ ∀ inp', crawl_btn inp' = false →
      Exists (λ item, (min_freq inp' ≤ item.2)%Z) wc →
      let '(st'', events') := main lower fetch lcut STOPWORDS inp' st' in
      let rows := most_common 20 (retained wc (min_freq inp')) in
      rows ≠ []
      ∧ events' = [st_dataframe rows;
                   st_pyecharts (chart_type inp')
                     (generate_chart (chart_type inp') rows)]
      ∧ word_count st'' = Some r ∧ objects st'' !! r = Some wc.
Proof.
  intros Hr Hwc Hne Hhigh Hbtn.
  rewrite (main_no_crawl _ _ _ _ inp st r Hr) by by rewrite Hbtn.
  rewrite (show_results_unfold inp st r wc Hwc Hne).
  rewrite (retained_nil wc (min_freq inp) Hhigh). cbn [negb truthy].
  cbn zeta. split_and!; [done|done|by apply lookup_app_l_Some|].
  intros inp' Hbtn' Hlow.
  set (st' := State (objects st ++ [[]; []]) (word_count st)).
  assert (objects st' !! r = Some wc) as Hwc' by by apply lookup_app_l_Some.
  rewrite (main_no_crawl _ _ _ _ inp' st' r Hr) by by rewrite Hbtn'.
  rewrite (show_results_unfold inp' st' r wc Hwc' Hne). cbn zeta.
  pose proof (retained_not_nil wc (min_freq inp') Hlow) as Hv.
  destruct (retained wc (min_freq inp')) as [|item v] eqn:Hret; [done|].
  cbn [negb truthy]. split_and!.
  - by apply most_common_not_nil.
  - done.
  - done.
  - by apply lookup_app_l_Some.
Qed.

Lemma empty_after_filter_witness :
  let '(st', events) :=
    main ascii_lower Examples.offline (λ text, [text]) ∅
      Examples.run_high Examples.session in
  events = [st_warning 4]
  ∧ word_count st' = Some 0
  ∧ objects st' !! 0 = Some (count_elements Examples.stream)
  ∧ (main ascii_lower Examples.offline (λ text, [text]) ∅
       Examples.run_low st').2
    = [st_dataframe [(lit "B", 3%Z); (lit "A", 2%Z)];
       st_pyecharts WordCloud [(lit "B", 3%Z); (lit "A", 2%Z)]].
Proof.
  pose proof (empty_after_filter ascii_lower Examples.offline (λ text, [text])
                ∅ Examples.run_high Examples.session 0
                (count_elements Examples.stream)
                eq_refl eq_refl) as H.
  destruct (main _ _ _ _ Examples.run_high Examples.session)
    as [st' events] eqn:E.
  destruct H as (He & Hr & Hwc & _).
  - discriminate.
  - vm_compute. repeat constructor.
  - reflexivity.
  - split; [exact He|]. split; [exact Hr|]. split; [exact Hwc|].
    vm_compute in E. injection E as <- _. reflexivity.
Defined.

(** * Further properties of the code *)

(** ** Trimming *)

Section StripFacts.

(** What [lstrip] takes off is whitespace, and what it leaves does not
    start with whitespace. *)
Lemma lstrip_split (s : str) :
  ∃ ws, s = ws ++ lstrip s ∧ Forall (λ c, is_space c = true) ws.
Proof.
  induction s as [|c s (ws & Hs & Hws)]; [by exists []|]. simpl.
  destruct (is_space c) eqn:Hc; [|by exists []].
  exists (c :: ws). split; [by rewrite Hs at 1|by constructor].
Qed.

Lemma lstrip_head (s : str) (c : char) :
  head (lstrip s) = Some c → is_space c = false.
Proof.
  induction s as [|x s IH]; simpl; [done|].
  destruct (is_space x) eqn:Hx; [done|]. simpl. by intros [= <-].
Qed.

Lemma lstrip_id (s : str) :
  (∀ c, head s = Some c → is_space c = false) → lstrip s = s.
Proof. destruct s as [|c s]; simpl; [done|]. intros H. by rewrite H. Qed.

Lemma rstrip_split (s : str) :
  ∃ ws, s = rstrip s ++ ws ∧ Forall (λ c, is_space c = true) ws.
Proof.
  destruct (lstrip_split (reverse s)) as (ws & Hs & Hws).
  exists (reverse ws). split; [|by apply Forall_reverse].
  unfold rstrip. rewrite <-reverse_app, <-Hs. by rewrite reverse_involutive.
Qed.

Lemma rstrip_last (s : str) (c : char) :
  last (rstrip s) = Some c → is_space c = false.
Proof.
  unfold rstrip. rewrite last_reverse. apply lstrip_head.
Qed.

Lemma rstrip_head (s : str) (c : char) :
  head (rstrip s) = Some c → head s = Some c.
Proof.
  destruct (rstrip_split s) as (ws & Hs & _). rewrite Hs at 2.
  by destruct (rstrip s).
Qed.

Lemma rstrip_id (s : str) :
  (∀ c, last s = Some c → is_space c = false) → rstrip s = s.
Proof.
  intros H. unfold rstrip. rewrite lstrip_id; [apply reverse_involutive|].
  intros c Hc. apply H. by rewrite <-head_reverse.
Qed.

Lemma strip_head (s : str) (c : char) :
  head (strip s) = Some c → is_space c = false.
Proof. intros H%rstrip_head. by eapply lstrip_head. Qed.

Lemma strip_last (s : str) (c : char) :
  last (strip s) = Some c → is_space c = false.
Proof. apply rstrip_last. Qed.

Lemma strip_id (s : str) :
  (∀ c, head s = Some c → is_space c = false) →
  (∀ c, last s = Some c → is_space c = false) → strip s = s.
Proof. intros Hh Hl. unfold strip. by rewrite lstrip_id, rstrip_id. Qed.

Lemma strip_strip (s : str) : strip (strip s) = strip s.
Proof. apply strip_id; [apply strip_head|apply strip_last]. Qed.

End StripFacts.

(** ** Cleaner *)

Section CleanerMore.

Lemma filter_none {A} (P : A → Prop) `{!∀ x, Decision (P x)} (l : list A) :
  Forall (λ x, ¬ P x) l → filter P l = [].
Proof.
  induction 1 as [|x l Hx _ IH]; [done|]. by rewrite filter_cons_False.
Qed.

Lemma tag_body_open (t : str) : Forall (λ c, c ≠ GT) t → tag_body t = None.
Proof.
  induction 1 as [|c t Hc _ IH]; simpl; [done|].
  case_decide; [done|]. by rewrite IH.
Qed.

(** Without a '>' no tag is ever closed. *)
Lemma strip_tags_no_gt (s : str) : Forall (λ c, c ≠ GT) s → strip_tags s = s.
Proof.
  induction 1 as [|c t Hc Ht IH]; [done|].
  rewrite strip_tags_equation_2, IH. unfold tag_match.
  rewrite tag_body_open by done. by case_decide.
Qed.

Lemma keep_after_remove_alnum (l : str) :
  keep_chinese (remove_alnum l) = keep_chinese l.
Proof.
  unfold keep_chinese, remove_alnum.
  rewrite (list_filter_filter _ _ l). apply list_filter_iff. intros c. split; [tauto|].
  intros Hc. split; [done|]. by apply kept_not_alnum.
Qed.

End CleanerMore.

(** X1.  The second substitution of the cleaner (line 70) never changes
    the result: cleaning is tag stripping followed by the restriction to
    the kept characters. *)
Theorem clean_without_alnum_step (x : str) :
  clean x = keep_chinese (remove_tags x).
Proof. unfold clean. apply keep_after_remove_alnum. Qed.

(** X2.  The texts the cleaner leaves unchanged are exactly those made of
    ideographs of U+4E00..U+9FA5 and the listed punctuation only. *)
Theorem clean_fixed_iff (y : str) :
  clean y = y ↔ Forall (λ c, (19968 ≤ c ≤ 40869)%N ∨ c ∈ punctuation) y.
Proof.
  split.
  - intros <-. eapply Forall_impl; [apply clean_kept|].
    intros c. apply kept_spec.
  - intros Hy. apply clean_fixed. eapply Forall_impl; [done|].
    intros c. apply kept_spec.
Qed.

(** X3.  A text of ASCII characters only is cleaned to the empty string. *)
Theorem clean_ascii (x : str) :
  Forall (λ c, (c < 128)%N) x → clean x = [].
Proof.
  intros Hx. unfold clean. rewrite keep_after_remove_alnum.
  unfold keep_chinese. apply filter_none, Forall_forall. intros c Hc.
  assert (c < 128)%N as Hlt.
  { rewrite Forall_forall in Hx. apply Hx.
    eapply elem_of_sublist; [done|apply strip_tags_sublist]. }
  intros [?|?%elem_of_punctuation]%kept_spec; lia.
Qed.

Lemma clean_ascii_witness :
  clean (lit "<p>Breaking news: 42 + 1 = 43!</p>") = [].
Proof.
  apply clean_ascii. vm_compute. repeat constructor.
Defined.

(** X4.  Only a closed tag swallows text: in a text with no '<', or with
    no '>', every kept character survives the cleaner. *)
Theorem clean_without_tag (x : str) :
  Forall (λ c, c ≠ LT) x ∨ Forall (λ c, c ≠ GT) x →
  clean x = filter (λ c, kept c = true) x.
Proof.
  intros Hx. unfold clean. rewrite keep_after_remove_alnum.
  unfold keep_chinese, remove_tags.
  destruct Hx as [Hx|Hx].
  - by rewrite (strip_tags_no_lt x Hx).
  - by rewrite (strip_tags_no_gt x Hx).
Qed.

Lemma clean_without_tag_witness :
  clean (lit "涨幅<5%，好") = lit "涨幅，好".
Proof.
  rewrite clean_without_tag; [reflexivity|].
  right. vm_compute. repeat constructor; discriminate.
Defined.

(** ** Aggregator *)

Section AggregatorMore.

Lemma occurrences_pos (w : str) (l : list str) :
  (1 ≤ occurrences w l)%Z ↔ w ∈ l.
Proof.
  unfold occurrences. induction l as [|x l IH]; simpl.
  - rewrite elem_of_nil. lia.
  - rewrite filter_cons, elem_of_cons. case_decide; simpl.
    + split; [by left; subst|lia].
    + rewrite IH. split; [by right|]. by intros [->|?].
Qed.

Lemma count_elements_submseteq (l : list str) :
  keys (count_elements l) ⊆+ l.
Proof.
  apply NoDup_submseteq; [apply count_elements_NoDup|].
  intros w. apply count_elements_keys.
Qed.

Lemma count_elements_positive (l : list str) (item : str * Z) :
  item ∈ count_elements l → (1 ≤ item.2)%Z.
Proof.
  destruct item as [w n]. intros [-> Hw]%count_elements_item.
  by apply occurrences_pos.
Qed.

Lemma retained_all (wc : Counter) (m : Z) :
  Forall (λ item, (m ≤ item.2)%Z) wc → retained wc m = wc.
Proof. intros H. unfold retained. by apply filter_all. Qed.

End AggregatorMore.

(** X5.  Looking a word up in the table of a stream gives the number of
    its occurrences in the stream: zero for a word that does not occur,
    at least one for a word that does. *)
Theorem counter_lookup (seg_list : list str) (word : str) :
  get (count_elements seg_list) word = occurrences word seg_list
  ∧ (word ∉ seg_list ↔ get (count_elements seg_list) word = 0%Z)
  ∧ (word ∈ seg_list ↔ (1 ≤ get (count_elements seg_list) word)%Z).
Proof.
  rewrite count_elements_get. split_and!; [done| |].
  - rewrite <-occurrences_pos. unfold occurrences. lia.
  - by rewrite occurrences_pos.
Qed.

(** X6.  The number of unique words [main] reports never exceeds the
    number of tokens, and the two are equal exactly when no token
    repeats. *)
Theorem unique_at_most_tokens (seg_list : list str) :
  length (count_elements seg_list) ≤ length seg_list
  ∧ (length (count_elements seg_list) = length seg_list ↔ NoDup seg_list).
Proof.
  pose proof (count_elements_submseteq seg_list) as Hsub.
  pose proof (count_elements_NoDup seg_list) as Hnd.
  unfold keys in *. rewrite <-(length_fmap fst (count_elements seg_list)).
  split; [by apply submseteq_length|]. split.
  - intros Hlen. rewrite <-(submseteq_length_Permutation _ _ Hsub); [done|].
    by rewrite Hlen.
  - intros Hl. apply Permutation_length, NoDup_Permutation; [done..|].
    intros w. apply count_elements_keys.
Qed.

(** X7.  Every count of a table built from a stream is at least one, so
    a threshold of one, the least the slider offers, or less, filters
    nothing out. *)
Theorem threshold_one_keeps_all (seg_list : list str) (σ : store)
    (word_count : loc) (min_freq : Z) :
  σ !! word_count = Some (count_elements seg_list) → (min_freq ≤ 1)%Z →
  Forall (λ item, (1 ≤ item.2)%Z) (count_elements seg_list)
  ∧ filtered σ word_count min_freq = count_elements seg_list.
Proof.
  intros Hwc Hm.
  assert (Forall (λ item, (1 ≤ item.2)%Z) (count_elements seg_list)) as Hpos.
  { apply Forall_forall. intros item. apply count_elements_positive. }
  split; [done|]. rewrite filtered_retained. unfold deref. rewrite Hwc. simpl.
  apply retained_all. eapply Forall_impl; [done|]. simpl. intros. lia.
Qed.

Lemma threshold_one_keeps_all_witness :
  filtered Examples.objects_of_stream 0 1 = count_elements Examples.stream.
Proof.
  apply (threshold_one_keeps_all Examples.stream Examples.objects_of_stream
           0 1); [reflexivity|lia].
Defined.

(** ** Filter and ranking *)

Section RankerMore.

Lemma deref_result (σ : store) (v : Counter) :
  deref (σ ++ [v; v]) (S (length σ)) = v.
Proof.
  unfold deref. rewrite (cons_middle v σ [v]), (assoc_L (++)).
  rewrite (list_lookup_middle (σ ++ [v]) [] v); [done|].
  rewrite length_app. simpl. lia.
Qed.

Lemma retained_retained (wc : Counter) (m1 m2 : Z) :
  retained (retained wc m1) m2 = retained wc (m1 `max` m2)%Z.
Proof.
  unfold retained. rewrite list_filter_filter.
  apply list_filter_iff. intros item. lia.
Qed.

Lemma StronglySorted_any (l : list (str * Z)) :
  StronglySorted (λ _ _, True) l.
Proof.
  induction l; constructor; [done|]. by apply Forall_forall.
Qed.

(** Whatever the input, the sort leaves the counts decreasing. *)
Lemma sorted_desc_decreasing (l : list (str * Z)) :
  StronglySorted (λ a b, (b.2 ≤ a.2)%Z) (sorted_desc l).
Proof.
  eapply StronglySorted_impl_elem;
    [|apply (sorted_desc_sorted (λ _ _, True)), StronglySorted_any].
  intros a b _ _ [?|[? _]]; lia.
Qed.

(** A list whose counts already decrease is left as it is. *)
Lemma sorted_desc_id (l : list (str * Z)) :
  StronglySorted (λ a b, (b.2 ≤ a.2)%Z) l → sorted_desc l = l.
Proof.
  induction 1 as [|x l Hl IH Hx]; [done|]. simpl. rewrite IH.
  destruct Hx as [|y l Hy _]; simpl; [done|]. by rewrite decide_False by lia.
Qed.

End RankerMore.

(** X8.  Filtering the table a call returned once more is filtering the
    first table with the larger of the two thresholds; in particular
    filtering twice with one threshold is filtering once. *)
Theorem filter_twice (σ : store) (word_count : loc) (m1 m2 : Z) :
  let '(σ1, r1) := filter_low_freq_words σ word_count m1 in
  filtered σ1 r1 m2 = filtered σ word_count (m1 `max` m2)%Z
  ∧ filtered σ1 r1 m1 = filtered σ word_count m1.
Proof.
  rewrite filter_low_freq_words_eq, !filtered_retained, deref_result.
  rewrite !retained_retained. by rewrite Z.max_id.
Qed.

(** X9.  [most_common(n)] returns as many rows as the table has, up to
    [n]; when the table has at most [n] entries the rows are all of them,
    in another order; and the first row carries the largest count of the
    whole table. *)
Theorem most_common_top (n : nat) (c : Counter) :
  length (most_common n c) = n `min` length c
  ∧ (length c ≤ n → most_common n c ≡ₚ c)
  ∧ (∀ first rest, most_common n c = first :: rest →
       Forall (λ item, (item.2 ≤ first.2)%Z) c).
Proof.
  unfold most_common. split_and!.
  - by rewrite length_take, (Permutation_length (sorted_desc_Permutation c)).
  - intros Hn. rewrite take_ge; [apply sorted_desc_Permutation|].
    by rewrite (Permutation_length (sorted_desc_Permutation c)).
  - intros first rest Hfirst.
    pose proof (sorted_desc_decreasing c) as Hs.
    rewrite <-(sorted_desc_Permutation c).
    destruct (sorted_desc c) as [|x s]; [by destruct n|].
    destruct n as [|n]; [done|]. simpl in Hfirst. injection Hfirst as <- _.
    apply StronglySorted_cons in Hs as [Hx _].
    constructor; [lia|done].
Qed.

Lemma most_common_top_witness :
  most_common 20 (count_elements Examples.stream)
  ≡ₚ count_elements Examples.stream
  ∧ Forall (λ item, (item.2 ≤ 3)%Z) (count_elements Examples.stream).
Proof.
  destruct (most_common_top 20 (count_elements Examples.stream))
    as (_ & Hperm & Htop).
  split; [apply Hperm; vm_compute; lia|].
  apply (Htop (lit "B", 3%Z) [(lit "A", 2%Z); (lit "C", 1%Z)]). reflexivity.
Defined.

(** X10.  Ranking a ranked list again changes nothing. *)
Theorem most_common_idempotent (n : nat) (c : Counter) :
  most_common n (most_common n c) = most_common n c.
Proof.
  unfold most_common. rewrite sorted_desc_id; [apply take_idemp|].
  eapply StronglySorted_sublist; [apply sublist_take|].
  apply sorted_desc_decreasing.
Qed.

(** ** Extractor *)

Section SoupFacts.

Lemma node_induction (P : node → Prop) :
  (∀ s, P (NavigableString s)) →
  (∀ s, P (Comment s)) →
  (∀ name class_ contents, Forall P contents → P (Tag name class_ contents)) →
  ∀ n, P n.
Proof.
  intros Hs Hc Ht. fix IH 1. intros [s|s|name class_ contents].
  - apply Hs.
  - apply Hc.
  - apply Ht. induction contents as [|c contents IHc]; constructor.
    + apply IH.
    + apply IHc.
Qed.

Lemma decompose_in_tag (name : str) (class_ : option (list str))
    (contents : list node) :
  decompose_in (Tag name class_ contents)
  = if bool_decide (name ∈ removed_names) then []
    else [Tag name class_ (contents ≫= decompose_in)].
Proof.
  simpl. by case_bool_decide.
Qed.

Lemma descendants_tag (name : str) (class_ : option (list str))
    (contents : list node) :
  descendants_or_self (Tag name class_ contents)
  = Tag name class_ contents :: (contents ≫= descendants_or_self).
Proof.
  done.
Qed.

Lemma get_text_tag (name : str) (class_ : option (list str))
    (contents : list node) :
  get_text (Tag name class_ contents) = contents ≫= get_text.
Proof.
  done.
Qed.

Lemma bind_bind {A B C} (f : A → list B) (g : B → list C) (l : list A) :
  (l ≫= f) ≫= g = l ≫= (λ x, f x ≫= g).
Proof.
  induction l as [|x l IH]; [done|]. by rewrite !bind_cons, bind_app, IH.
Qed.

(** Below what the loop leaves, no tag with a removed name is found. *)
Lemma decompose_in_survives (n : node) :
  Forall survives (decompose_in n ≫= descendants_or_self).
Proof.
  induction n as [s|s|name class_ contents IH] using node_induction.
  - by repeat constructor.
  - by repeat constructor.
  - rewrite decompose_in_tag. case_bool_decide as Hname; [constructor|].
    rewrite bind_singleton, descendants_tag. constructor; [done|].
    rewrite bind_bind. apply Forall_bind.
    eapply Forall_impl; [exact IH|]. done.
Qed.

(** A tree without such tags is left as it is. *)
Lemma decompose_in_id (n : node) :
  Forall survives (descendants_or_self n) → decompose_in n = [n].
Proof.
  induction n as [s|s|name class_ contents IH] using node_induction;
    [done..|].
  rewrite descendants_tag, decompose_in_tag.
  intros [Hname Hsub]%Forall_cons. simpl in Hname.
  rewrite bool_decide_eq_false_2 by done. do 2 f_equal.
  apply Forall_bind in Hsub.
  induction IH as [|c contents Hc _ IHc]; [done|].
  apply Forall_cons in Hsub as [Hc' Hsub].
  rewrite bind_cons, Hc, IHc by done. done.
Qed.

Lemma decompose_all_id (doc : soup) :
  Forall survives (doc ≫= descendants_or_self) → decompose_all doc = doc.
Proof.
  unfold decompose_all. intros H%Forall_bind.
  induction H as [|n doc Hn _ IH]; [done|].
  by rewrite bind_cons, decompose_in_id, IH.
Qed.

Lemma decompose_all_survives (doc : soup) :
  Forall survives (decompose_all doc ≫= descendants_or_self).
Proof.
  unfold decompose_all. rewrite bind_bind. apply Forall_bind.
  apply Forall_forall. intros n _. apply decompose_in_survives.
Qed.

End SoupFacts.

(** X11.  After the loop of lines 53-54 no script, style, nav, footer,
    aside or header tag is left at any depth of the tree, so searching for
    one finds nothing; and running the loop again changes nothing. *)
Theorem decompose_all_removes (doc : soup) :
  Forall survives (decompose_all doc ≫= descendants_or_self)
  ∧ Forall (λ name, find_all (is_tag name) (decompose_all doc) = [])
      removed_names
  ∧ decompose_all (decompose_all doc) = decompose_all doc.
Proof.
  pose proof (decompose_all_survives doc) as Hs. split_and!.
  - done.
  - apply Forall_forall. intros name Hname. unfold find_all.
    apply filter_none. eapply Forall_impl; [exact Hs|].
    intros [s|s|name' class_ contents]; simpl; [done..|].
    intros Hn. case_bool_decide; [by subst|done].
  - by apply decompose_all_id.
Qed.

Section JoinFacts.

Lemma join_cons_ne (sep p : str) (ps : list str) :
  p ≠ [] → join sep (p :: ps) ≠ [].
Proof. destruct p; [done|]. by destruct ps. Qed.

Lemma join_head (sep p : str) (ps : list str) :
  p ≠ [] → head (join sep (p :: ps)) = head p.
Proof. destruct p; [done|]. by destruct ps. Qed.

Lemma join_last (sep : str) (parts : list str) (c : char) :
  Forall (λ p, p ≠ []) parts →
  last (join sep parts) = Some c → ∃ p, p ∈ parts ∧ last p = Some c.
Proof.
  induction 1 as [|p ps Hp Hps IH]; [done|].
  destruct ps as [|q ps].
  - simpl. intros Hc. exists p. split; [by left|done].
  - change (join sep (p :: q :: ps)) with (p ++ sep ++ join sep (q :: ps)).
    apply Forall_cons in Hps as [Hq Hps].
    pose proof (join_cons_ne sep q ps Hq) as Hne.
    apply last_is_Some in Hne as [d Hd].
    set (J := join sep (q :: ps)) in *.
    change (last J = Some d) in Hd.
    rewrite (last_app p), (last_app sep), Hd. intros [= <-].
    destruct (IH Hd) as (r & Hr & Hlast). exists r. split; [by right|done].
Qed.

(** Parts that are trimmed and not empty join to a trimmed text. *)
Lemma join_trimmed (sep : str) (parts : list str) :
  Forall (λ p, p ≠ [] ∧ strip p = p) parts →
  strip (join sep parts) = join sep parts.
Proof.
  intros Hparts. apply strip_id.
  - destruct Hparts as [|p ps [Hp Hstrip] _]; [done|].
    rewrite join_head by done. rewrite <-Hstrip. apply strip_head.
  - intros c Hc. apply join_last in Hc as (p & Hin & Hlast).
    + rewrite Forall_forall in Hparts. destruct (Hparts p Hin) as [_ Hstrip].
      rewrite <-Hstrip in Hlast. by eapply strip_last.
    + eapply Forall_impl; [exact Hparts|]. by intros p [? _].
Qed.

Lemma tags_text_trimmed (content_tags : list node) :
  strip (tags_text content_tags) = tags_text content_tags.
Proof.
  unfold tags_text. apply join_trimmed, Forall_fmap, Forall_forall.
  intros tag [Ht _]%list_elem_of_filter. simpl. split; [|apply strip_strip].
  by destruct (strip (get_text tag)).
Qed.

End JoinFacts.

(** X12.  A text the extractor returns is already trimmed: it neither
    starts nor ends with whitespace, whatever the markup held. *)
Theorem extract_trimmed (lower : str → str) (doc : soup) (text error : str) :
  extract lower doc = (Some text, error) →
  strip text = text
  ∧ (∀ c, head text = Some c → is_space c = false)
  ∧ (∀ c, last text = Some c → is_space c = false).
Proof.
  rewrite extract_unfold. unfold result_of.
  destruct (tags_text _) as [|c t] eqn:Htext; [done|].
  simpl. intros [= <- _].
  assert (strip (c :: t) = c :: t) as Hstrip
    by (rewrite <-Htext; apply tags_text_trimmed).
  split; [done|]. rewrite <-Hstrip. split; [apply strip_head|apply strip_last].
Qed.

Lemma extract_trimmed_witness :
  extract ascii_lower Examples.doc_paragraphs
  = (Some (lit "第一段" ++ newline ++ lit "第二段"), [])
  ∧ strip (lit "第一段" ++ newline ++ lit "第二段")
    = lit "第一段" ++ newline ++ lit "第二段".
Proof.
  assert (extract ascii_lower Examples.doc_paragraphs
          = (Some (lit "第一段" ++ newline ++ lit "第二段"), [])) as H
    by reflexivity.
  split; [exact H|]. by apply (extract_trimmed _ _ _ _ H).
Defined.

(** X13.  [find_all] also returns the matches that lie inside other
    matches, so the text of an article nested in an article is extracted
    twice: once as part of the outer article and once on its own. *)
Theorem nested_article_twice (lower : str → str)
    (class1 class2 : option (list str)) (s : str) :
  strip s ≠ [] →
  extract lower
    [Tag (lit "article") class1
       [Tag (lit "article") class2 [NavigableString s]]]
  = (Some (strip s ++ newline ++ strip s), []).
Proof.
  intros Hs. rewrite extract_unfold.
  set (inner := Tag (lit "article") class2 [NavigableString s]).
  set (outer := Tag (lit "article") class1 [inner]).
  assert (decompose_all [outer] = [outer]) as -> by reflexivity.
  assert (tier1 [outer] = [outer; inner]) as -> by reflexivity.
  assert (get_text inner = s) as Hinner by apply app_nil_r.
  assert (get_text outer = s) as Houter
    by (simpl; by rewrite !app_nil_r).
  unfold or_, tags_text. cbn [truthy].
  rewrite !filter_cons, filter_nil, Hinner, Houter.
  destruct (strip s) as [|c t] eqn:Hstrip; [done|]. cbn [truthy].
  rewrite !decide_True by done. rewrite !fmap_cons, Hinner, Houter, Hstrip.
  done.
Qed.

Lemma nested_article_twice_witness :
  extract ascii_lower
    [Tag (lit "article") None
       [Tag (lit "article") None [NavigableString (lit " 要闻 ")]]]
  = (Some (lit "要闻" ++ newline ++ lit "要闻"), []).
Proof.
  apply (nested_article_twice ascii_lower None None (lit " 要闻 ")).
  discriminate.
Defined.

(** ** The stopword table *)

(** X14.  Read from a file, the stopwords are the trimmed lines that are
    not blank: every stopword is non-empty and has no whitespace at either
    end, blank lines add nothing, and no warning is shown. *)
Theorem load_stopwords_file (f : list str) :
  (∀ word, word ∈ (load_stopwords (Some f)).1
           ↔ word ≠ [] ∧ ∃ line, line ∈ f ∧ strip line = word)
  ∧ (∀ word, word ∈ (load_stopwords (Some f)).1 →
             strip word = word ∧ [] ≠ word)
  ∧ ([] ∉ (load_stopwords (Some f)).1)
  ∧ (load_stopwords (Some f)).2 = None.
Proof.
  assert (∀ word, word ∈ (load_stopwords (Some f)).1
                  ↔ word ≠ [] ∧ ∃ line, line ∈ f ∧ strip line = word) as Hin.
  { intros word. simpl. rewrite elem_of_list_to_set, list_elem_of_fmap.
    split.
    - intros (line & -> & [Ht Hline]%list_elem_of_filter).
      split; [by destruct (strip line)|by exists line].
    - intros (Hne & line & Hline & <-). exists line. split; [done|].
      apply list_elem_of_filter. split; [|done]. by destruct (strip line). }
  split_and!; [done| | |done].
  - intros word (Hne & line & _ & <-)%Hin. split; [apply strip_strip|done].
  - by intros [? _]%Hin.
Qed.

(** X15.  Without the file the built-in table is used and the warning is
    shown.  Of its 49 entries only the nine of two characters ever decide
    anything: a one-character token is dropped by the length test of line
    75 whether it is a stopword or not. *)
Theorem load_stopwords_default (seg_list : list str) :
  load_stopwords None = (default_stopwords, Some missing_file_warning)
  ∧ post_filter default_stopwords seg_list
    = post_filter
        (list_to_set
           (lit <$> ["对于"; "关于"; "通过"; "随着"; "按照"; "基于"; "根据";
                     "如果"; "假如"]%string))
        seg_list.
Proof.
  split; [done|]. unfold post_filter. apply list_filter_iff. intros word.
  unfold valid_word.
  enough ((1 < length word)%nat →
          word ∈ default_stopwords
          ↔ word ∈ (list_to_set
                      (lit <$> ["对于"; "关于"; "通过"; "随着"; "按照";
                                "基于"; "根据"; "如果"; "假如"]%string)
                    : gset str)) by tauto.
  intros Hlen. unfold default_stopwords. rewrite !elem_of_list_to_set.
  match goal with |- _ ∈ ?l ↔ _ ∈ ?k =>
    let l' := eval vm_compute in l in
    let k' := eval vm_compute in k in
    change (word ∈ l' ↔ word ∈ k')
  end.
  rewrite !elem_of_cons, !elem_of_nil. split.
  - intros H. repeat (destruct H as [H|H]); try done; subst word;
      try (simpl in Hlen; lia); tauto.
  - tauto.
Qed.

(** ** The page *)

Section MainMore.

Variable lower : str → str.
Variable fetch : str → soup + str.
Variable lcut : str → list str.
Variable STOPWORDS : gset str.

(** What [crawl_url_article] can return. *)
Lemma crawl_result (url : str) :
  (∃ e, e ≠ [] ∧ crawl_url_article lower fetch url = (None, e))
  ∨ (∃ text, text ≠ [] ∧ crawl_url_article lower fetch url = (Some text, [])).
Proof.
  unfold crawl_url_article. destruct (fetch url) as [doc|e].
  - rewrite extract_unfold. unfold result_of.
    destruct (tags_text _) as [|c t]; [left|right].
    + by exists no_content.
    + by exists (c :: t).
  - left. exists (lit "爬取失败：" ++ e). by split.
Qed.

(** Lines 216-235 for any session. *)
Lemma show_results_eq (inp : inputs) (st : state) (r : loc) :
  show_results inp st r
  = let wc := deref (objects st) r in
    let v := retained wc (min_freq inp) in
    if truthy wc then
      (State (objects st ++ [v; v]) (word_count st),
       if truthy v then
         [st_dataframe (most_common 20 v);
          st_pyecharts (chart_type inp)
            (generate_chart (chart_type inp) (most_common 20 v))]
       else [st_warning (min_freq inp)])
    else (st, []).
Proof.
  unfold show_results. cbn zeta.
  destruct (truthy (deref (objects st) r)); [|done].
  rewrite filter_low_freq_words_eq, deref_result.
  by destruct (truthy (retained _ _)).
Qed.

(** One run of [main], with the results of the calls put in. *)
Lemma main_eq (inp : inputs) (st : state) :
  main lower fetch lcut STOPWORDS inp st
  = let st0 := (initialised st).1 in
    let r := (initialised st).2 in
    if crawl_btn inp && truthy (url inp) then
      match crawl_url_article lower fetch (url inp) with
      | (None, e) => (st0, [http_get (url inp); st_error e])
      | (Some text, _) =>
        let seg := (clean_and_segment lcut STOPWORDS text).1 in
        let wc := (clean_and_segment lcut STOPWORDS text).2 in
        let r1 := length (objects st0) in
        let st1 := State (objects st0 ++ [wc]) (Some r1) in
        ((show_results inp st1 r1).1,
         [http_get (url inp); st_success (length text);
          st_info (length seg) (length wc)] ++ (show_results inp st1 r1).2)
      end
    else show_results inp st0 r.
Proof.
  unfold main, initialised, alloc.
  destruct (word_count st) as [r|]; cbn [fst snd];
    (destruct (crawl_btn inp && truthy (url inp)); [|done]);
    destruct (crawl_result (url inp)) as [(e & He & ->)|(text & Ht & ->)].
  - by destruct e.
  - cbn [truthy]. destruct (clean_and_segment _ _ _) as [seg wc].
    cbn [fst snd]. by destruct (show_results _ _ _).
  - by destruct e.
  - cbn [truthy]. destruct (clean_and_segment _ _ _) as [seg wc].
    cbn [fst snd]. by destruct (show_results _ _ _).
Qed.

(** [show_results] only warns or shows the table and the chart. *)
Lemma show_results_events (inp : inputs) (st : state) (r : loc) (e : event) :
  e ∈ (show_results inp st r).2 →
  match e with
  | st_warning _ | st_dataframe _ | st_pyecharts _ _ => True
  | _ => False
  end.
Proof.
  rewrite show_results_eq. cbn zeta.
  destruct (truthy (deref _ _)); [|by intros ?%elem_of_nil]. cbn [snd].
  destruct (truthy (retained _ _)); rewrite !elem_of_cons, elem_of_nil;
    intros H; by repeat (destruct H as [->|H]).
Qed.

Lemma show_results_objects (inp : inputs) (st : state) (r : loc) :
  objects st `prefix_of` objects (show_results inp st r).1
  ∧ word_count (show_results inp st r).1 = word_count st.
Proof.
  rewrite show_results_eq. cbn zeta.
  destruct (truthy (deref _ _)); [|done]. split; [by eexists|done].
Qed.

End MainMore.

Section MainTheorems.

Variable lower : str → str.
Variable fetch : str → soup + str.
Variable lcut : str → list str.
Variable STOPWORDS : gset str.

Lemma initialised_spec (st : state) :
  objects st `prefix_of` objects (initialised st).1
  ∧ word_count (initialised st).1 = Some (initialised st).2.
Proof.
  unfold initialised. destruct (word_count st) eqn:Hr; simpl.
  - done.
  - split; [by eexists|done].
Qed.

Lemma deref_snoc (σ : store) (v : Counter) :
  (σ ++ [v]) !! length σ = Some v.
Proof. by apply list_lookup_middle. Qed.

(** When the table is shown, it is the ranking of the table the session
    refers to. *)
Lemma show_results_rows (inp : inputs) (st : state) (r : loc)
    (rows : list (str * Z)) :
  st_dataframe rows ∈ (show_results inp st r).2 →
  ∃ wc, objects st !! r = Some wc
        ∧ retained wc (min_freq inp) ≠ []
        ∧ rows = most_common 20 (retained wc (min_freq inp))
        ∧ (show_results inp st r).2
          = [st_dataframe rows;
             st_pyecharts (chart_type inp)
               (generate_chart (chart_type inp) rows)].
Proof.
  rewrite show_results_eq. cbn zeta. unfold deref.
  destruct (objects st !! r) as [wc|]; simpl;
    [|by intros ?%elem_of_nil].
  destruct (truthy wc); [|by intros ?%elem_of_nil]. cbn [snd].
  destruct (retained wc (min_freq inp)) as [|item v] eqn:Hv; cbn [truthy].
  - rewrite list_elem_of_singleton. done.
  - rewrite !elem_of_cons, elem_of_nil. intros [[= ->]|[?|?]]; [|done..].
    exists wc. by rewrite Hv.
Qed.

End MainTheorems.

(** X16.  A run of the page sends a request only when the button is
    pressed and the URL is not empty, and then exactly one, for that URL,
    before anything else; and no run ever fails on a missing text. *)
Theorem main_requests (lower : str → str) (fetch : str → soup + str)
    (lcut : str → list str) (STOPWORDS : gset str)
    (inp : inputs) (st : state) :
  let events := (main lower fetch lcut STOPWORDS inp st).2 in
  (TypeError ∉ events)
  ∧ (crawl_btn inp && truthy (url inp) = false → ∀ u, http_get u ∉ events)
  ∧ (crawl_btn inp && truthy (url inp) = true →
     ∃ rest, events = http_get (url inp) :: rest ∧ ∀ u, http_get u ∉ rest).
Proof.
  intros events. subst events. rewrite main_eq. cbn zeta.
  assert (∀ st1 r1 e, e ∈ (show_results inp st1 r1).2 →
            e ≠ TypeError ∧ ∀ u, e ≠ http_get u) as Hshown.
  { intros st1 r1 e He%show_results_events. by destruct e. }
  destruct (crawl_btn inp && truthy (url inp)).
  - destruct (crawl_result lower fetch (url inp))
      as [(e & He & ->)|(text & Ht & ->)]; cbn [snd app].
    + split_and!; [|done|].
      * rewrite !elem_of_cons, elem_of_nil. by intros [|[|]].
      * intros _. eexists. split; [done|]. intros u.
        rewrite list_elem_of_singleton. done.
    + split_and!; [|done|].
      * rewrite !elem_of_cons. intros [|[|[|H]]]; [done..|].
        by apply Hshown in H as [? _].
      * intros _. eexists. split; [done|]. intros u.
        rewrite !elem_of_cons. intros [|[|H]]; [done..|].
        apply Hshown in H as [_ H]. by apply (H u).
  - split_and!; [| |done].
    + intros H. by apply Hshown in H as [? _].
    + intros _ u H. apply Hshown in H as [_ H]. by apply (H u).
Qed.

Lemma main_requests_witness :
  http_get (lit "http://example.com")
  ∉ (main ascii_lower Examples.online Examples.cut_pairs ∅
       Examples.run_low Examples.session).2.
Proof.
  destruct (main_requests ascii_lower Examples.online Examples.cut_pairs ∅
              Examples.run_low Examples.session) as (_ & H & _).
  apply H. reflexivity.
Defined.

(** X17.  A crawl that fails, in the request or in the extraction, shows
    the request and the error message and nothing else, not even the
    results of an earlier article, and leaves the session exactly as it
    was. *)
Theorem main_failed_crawl (lower : str → str) (fetch : str → soup + str)
    (lcut : str → list str) (STOPWORDS : gset str)
    (inp : inputs) (st : state) (r : loc) :
  word_count st = Some r → crawl_btn inp = true → url inp ≠ [] →
  (crawl_url_article lower fetch (url inp)).1 = None →
  main lower fetch lcut STOPWORDS inp st
  = (st, [http_get (url inp);
          st_error (crawl_url_article lower fetch (url inp)).2])
  ∧ (crawl_url_article lower fetch (url inp)).2 ≠ [].
Proof.
  intros Hr Hbtn Hurl Hfail. rewrite main_eq. cbn zeta.
  unfold initialised. rewrite Hr, Hbtn. cbn [fst snd andb].
  destruct (url inp) as [|c u] eqn:Heq; [done|]. cbn [truthy].
  destruct (crawl_result lower fetch (c :: u))
    as [(e & He & Hc)|(text & Ht & Hc)]; rewrite Hc in *; [done|].
  discriminate.
Qed.

Lemma main_failed_crawl_witness :
  main ascii_lower Examples.offline Examples.cut_pairs ∅
    Examples.run_crawl Examples.session
  = (Examples.session,
     [http_get (lit "http://example.com");
      st_error (lit "爬取失败：timeout")]).
Proof.
  apply (main_failed_crawl ascii_lower Examples.offline Examples.cut_pairs ∅
           Examples.run_crawl Examples.session 0); [done|done| |done].
  discriminate.
Defined.

(** X18.  A crawl that succeeds makes the session refer to a new counter,
    the table of the tokens of the extracted text, at an address that held
    nothing before; the run reports the request, the length of the text
    and the numbers of tokens and of unique words; and when the text has
    no valid token at all, that is all it shows: no table and no
    warning. *)
Theorem main_crawl (lower : str → str) (fetch : str → soup + str)
    (lcut : str → list str) (STOPWORDS : gset str)
    (inp : inputs) (st : state) (text error : str) :
  crawl_btn inp = true → url inp ≠ [] →
  crawl_url_article lower fetch (url inp) = (Some text, error) →
  let seg_list := post_filter STOPWORDS (lcut (clean text)) in
  let st' := (main lower fetch lcut STOPWORDS inp st).1 in
  let events := (main lower fetch lcut STOPWORDS inp st).2 in
  let report :=
    [http_get (url inp); st_success (length text);
     st_info (length seg_list) (length (count_elements seg_list))] in
  (∃ r, word_count st' = Some r
        ∧ objects st' !! r = Some (count_elements seg_list)
        ∧ objects st !! r = None)
  ∧ take 3 events = report
  ∧ (seg_list = [] → events = report).
Proof.
  intros Hbtn Hurl Hcrawl seg_list st' events report.
  subst st' events. rewrite main_eq. cbn zeta.
  rewrite Hbtn, Hcrawl. destruct (url inp) as [|c u] eqn:Heq; [done|].
  cbn [andb truthy fst snd]. fold seg_list.
  change (clean_and_segment lcut STOPWORDS text).2
    with (count_elements seg_list).
  change (clean_and_segment lcut STOPWORDS text).1 with seg_list.
  destruct (initialised_spec st) as [Hpre _].
  set (σ0 := objects (initialised st).1) in *.
  set (st1 := State (σ0 ++ [count_elements seg_list]) (Some (length σ0))).
  destruct (show_results_objects inp st1 (length σ0)) as [Hpre1 Hwc1].
  split_and!.
  - exists (length σ0). split_and!.
    + by rewrite Hwc1.
    + eapply prefix_lookup_Some; [|exact Hpre1]. apply deref_snoc.
    + apply lookup_ge_None. by apply prefix_length.
  - done.
  - intros Hseg. subst report. rewrite show_results_eq. cbn zeta.
    unfold deref. simpl objects. rewrite deref_snoc, !Hseg. reflexivity.
Qed.

Lemma main_crawl_witness :
  let run := main ascii_lower Examples.online in
  (run Examples.cut_pairs ∅ Examples.run_crawl Examples.new_session).2
  = [http_get (lit "http://example.com"); st_success 7; st_info 3 3;
     st_dataframe
       [(lit "第一", 1%Z); (lit "段第", 1%Z); (lit "二段", 1%Z)];
     st_pyecharts Bar
       [(lit "第一", 1%Z); (lit "段第", 1%Z); (lit "二段", 1%Z)]]
  ∧ (run Examples.cut_chars ∅ Examples.run_crawl Examples.new_session).2
    = [http_get (lit "http://example.com"); st_success 7; st_info 0 0].
Proof.
  split; [reflexivity|].
  destruct (main_crawl ascii_lower Examples.online Examples.cut_chars ∅
              Examples.run_crawl Examples.new_session
              (lit "第一段" ++ newline ++ lit "第二段") [])
    as (_ & _ & H); [done|discriminate|reflexivity|].
  by rewrite H.
Defined.

(** X19.  No run of the page changes or removes a counter that exists:
    the store only grows, so every object is found where it was with the
    content it had; and after any run the session holds a counter. *)
Theorem main_store_grows (lower : str → str) (fetch : str → soup + str)
    (lcut : str → list str) (STOPWORDS : gset str)
    (inp : inputs) (st : state) :
  let st' := (main lower fetch lcut STOPWORDS inp st).1 in
  objects st `prefix_of` objects st'
  ∧ (∀ r wc, objects st !! r = Some wc → objects st' !! r = Some wc)
  ∧ is_Some (word_count st').
Proof.
  intros st'.
  assert (objects st `prefix_of` objects st' ∧ is_Some (word_count st'))
    as [Hpre Hr].
  { subst st'. rewrite main_eq. cbn zeta.
    destruct (initialised_spec st) as [Hpre Hr].
    destruct (crawl_btn inp && truthy (url inp)).
    - destruct (crawl_result lower fetch (url inp))
        as [(e & He & ->)|(text & Ht & ->)]; cbn [fst].
      + by rewrite Hr.
      + match goal with |- context [show_results inp ?s ?r] =>
          destruct (show_results_objects inp s r) as [Hpre1 Hwc1]
        end.
        rewrite Hwc1. split; [|done]. etrans; [exact Hpre|].
        etrans; [|exact Hpre1]. by eexists.
    - destruct (show_results_objects inp (initialised st).1
                  (initialised st).2) as [Hpre1 Hwc1].
      rewrite Hwc1, Hr. split; [by etrans|done]. }
  split_and!; [done| |done].
  intros r wc Hwc. by eapply prefix_lookup_Some.
Qed.

(** X20.  Whenever a run shows the table, its rows are the ranking of the
    table the session then refers to: they are not empty, at most 20, each
    with a count that reaches the threshold; the chart of the same rows
    is shown with it, and the warning is not. *)
Theorem main_dataframe (lower : str → str) (fetch : str → soup + str)
    (lcut : str → list str) (STOPWORDS : gset str)
    (inp : inputs) (st : state) (rows : list (str * Z)) :
  let st' := (main lower fetch lcut STOPWORDS inp st).1 in
  let events := (main lower fetch lcut STOPWORDS inp st).2 in
  st_dataframe rows ∈ events →
  rows ≠ [] ∧ length rows ≤ 20
  ∧ Forall (λ item, (min_freq inp ≤ item.2)%Z) rows
  ∧ st_pyecharts (chart_type inp) (generate_chart (chart_type inp) rows)
    ∈ events
  ∧ (st_warning (min_freq inp) ∉ events)
  ∧ ∃ r wc, word_count st' = Some r ∧ objects st' !! r = Some wc
            ∧ rows = most_common 20 (retained wc (min_freq inp)).
Proof.
  intros st' events. subst st' events. rewrite main_eq. cbn zeta.
  assert (∀ st1 r1,
            word_count st1 = Some r1 →
            st_dataframe rows ∈ (show_results inp st1 r1).2 →
            rows ≠ [] ∧ length rows ≤ 20
            ∧ Forall (λ item, (min_freq inp ≤ item.2)%Z) rows
            ∧ (show_results inp st1 r1).2
              = [st_dataframe rows;
                 st_pyecharts (chart_type inp)
                   (generate_chart (chart_type inp) rows)]
            ∧ ∃ r wc, word_count (show_results inp st1 r1).1 = Some r
                      ∧ objects (show_results inp st1 r1).1 !! r = Some wc
                      ∧ rows = most_common 20 (retained wc (min_freq inp)))
    as Hshow.
  { intros st1 r1 Hr1 (wc & Hwc & Hne & -> & Hev)%show_results_rows.
    destruct (show_results_objects inp st1 r1) as [Hpre Hw].
    split_and!.
    - by apply most_common_not_nil.
    - unfold most_common. rewrite length_take. lia.
    - apply Forall_forall. intros item Hitem.
      assert (item ∈ retained wc (min_freq inp)) as Hin.
      { rewrite <-(sorted_desc_Permutation (retained _ _)).
        eapply elem_of_sublist; [exact Hitem|apply sublist_take]. }
      by apply elem_of_retained in Hin as [_ ?].
    - done.
    - exists r1, wc. rewrite Hw. split_and!; [done| |done].
      by eapply prefix_lookup_Some. }
  destruct (initialised_spec st) as [_ Hr0].
  destruct (crawl_btn inp && truthy (url inp)).
  - destruct (crawl_result lower fetch (url inp))
      as [(e & He & ->)|(text & Ht & ->)]; cbn [fst snd app].
    + rewrite !elem_of_cons, elem_of_nil. by intros [|[|]].
    + rewrite !elem_of_cons. intros [|[|[|Hin]]]; [done..|].
      match type of Hin with context [show_results inp ?s ?r] =>
        destruct (Hshow s r eq_refl Hin) as (H1 & H2 & H3 & Hev & H5)
      end.
      split_and!; [done..| | |done].
      * rewrite Hev, !elem_of_cons. tauto.
      * rewrite Hev, !elem_of_cons, elem_of_nil. by intros [|[|[|[|[|]]]]].
  - intros Hin.
    destruct (Hshow _ _ Hr0 Hin) as (H1 & H2 & H3 & Hev & H5).
    split_and!; [done..| | |done].
    + rewrite Hev, !elem_of_cons. tauto.
    + rewrite Hev, !elem_of_cons, elem_of_nil. by intros [|[|]].
Qed.

Lemma main_dataframe_witness :
  let rows := [(lit "B", 3%Z); (lit "A", 2%Z)] in
  st_dataframe rows
  ∈ (main ascii_lower Examples.offline Examples.cut_pairs ∅
       Examples.run_low Examples.session).2
  ∧ rows ≠ [] ∧ length rows ≤ 20
  ∧ Forall (λ item, (2 ≤ item.2)%Z) rows.
Proof.
  intros rows.
  assert (st_dataframe rows
          ∈ (main ascii_lower Examples.offline Examples.cut_pairs ∅
               Examples.run_low Examples.session).2) as Hin
    by (vm_compute; left).
  split; [exact Hin|].
  destruct (main_dataframe ascii_lower Examples.offline Examples.cut_pairs ∅
              Examples.run_low Examples.session rows Hin)
    as (H1 & H2 & H3 & _).
  split; [exact H1|]. split; [exact H2|exact H3].
Defined.

(** X21.  With no crawl and nothing counted yet, because the session is
    new or its table is empty, a run shows nothing at all, not even the
    warning; a new session is given an empty counter. *)
Theorem main_empty_session (lower : str → str) (fetch : str → soup + str)
    (lcut : str → list str) (STOPWORDS : gset str)
    (inp : inputs) (st : state) :
  crawl_btn inp && truthy (url inp) = false →
  (word_count st = None →
   main lower fetch lcut STOPWORDS inp st
   = (State (objects st ++ [[]]) (Some (length (objects st))), []))
  ∧ (∀ r, word_count st = Some r → objects st !! r = Some [] →
     main lower fetch lcut STOPWORDS inp st = (st, [])).
Proof.
  intros Hc. rewrite main_eq. cbn zeta. rewrite Hc. unfold initialised.
  split.
  - intros ->. cbn [fst snd]. rewrite show_results_eq. cbn zeta.
    unfold deref. simpl objects. by rewrite deref_snoc.
  - intros r -> Hwc. cbn [fst snd]. rewrite show_results_eq. cbn zeta.
    unfold deref. by rewrite Hwc.
Qed.

Lemma main_empty_session_witness :
  main ascii_lower Examples.offline Examples.cut_pairs ∅
    Examples.run_low Examples.new_session
  = (State [[]] (Some 0), []).
Proof.
  destruct (main_empty_session ascii_lower Examples.offline
              Examples.cut_pairs ∅ Examples.run_low Examples.new_session)
    as [H _]; [reflexivity|].
  by apply H.
Defined.
